(** * league-connect: [authenticate] (src/authentication.ts)

    A shallow embedding of the credential discovery of the League Client:
    the three regular expressions applied to the process listing, the
    single attempt [tryAuthenticate], and the control flow of
    [authenticate] (platform check, one-shot call, polling loop).

    Conventions.
    - The process listing is a [string].  The three regular expressions only
      mention ASCII characters, and every byte of a multi-byte UTF-8 sequence
      is above 127, so matching the bytes and matching the UTF-16 code units
      of the decoded text find the same captures.
    - A JavaScript promise that may stay pending is modelled by a machine
      driven by a list of inputs; the machine records what the call did in a
      log of events.
    - What the operating system answers (the process listing, the content
      of the bundled certificate) is a parameter, indexed by the attempt.
    - The options are those of the call: the module never writes to them,
      and the caller is taken not to change them while the call runs. *)

From Stdlib Require Import String Ascii List ZArith Bool Lia.
Import ListNotations.
Open Scope string_scope.

(* ------------------------------------------------------------------ *)
(** ** Character classes and the three regular expressions *)

Module Regex.

(** [[0-9]] *)
Definition is_digit (c : ascii) : bool :=
  let n := nat_of_ascii c in (48 <=? n)%nat && (n <=? 57)%nat.

(** [\w] without the unicode and ignoreCase flags: [[A-Za-z0-9_]]. *)
Definition is_word (c : ascii) : bool :=
  let n := nat_of_ascii c in
  ((65 <=? n)%nat && (n <=? 90)%nat)
  || ((97 <=? n)%nat && (n <=? 122)%nat)
  || is_digit c
  || (n =? 95)%nat.

(** [[\w-_]]: after a class escape the hyphen is a literal hyphen, so the
    class is [\w], ["-"] and ["_"]. *)
Definition is_token (c : ascii) : bool :=
  is_word c || Ascii.eqb c "-" || Ascii.eqb c "_".

(** A regular expression of the shape [/marker([class]+)/]. *)
Record regex := { marker : string; class : ascii -> bool }.

Definition portRegex : regex :=
  {| marker := "--app-port="; class := is_digit |}.
Definition passwordRegex : regex :=
  {| marker := "--remoting-auth-token="; class := is_token |}.
Definition pidRegex : regex :=
  {| marker := "--app-pid="; class := is_digit |}.

(** The text that remains after a literal prefix, if the prefix is there. *)
Fixpoint strip_prefix (lit s : string) : option string :=
  match lit with
  | EmptyString => Some s
  | String a lit' =>
      match s with
      | EmptyString => None
      | String b s' => if Ascii.eqb a b then strip_prefix lit' s' else None
      end
  end.

(** The greedy run [[class]*] at the head of a text. *)
Fixpoint take_while (p : ascii -> bool) (s : string) : string :=
  match s with
  | EmptyString => EmptyString
  | String c s' => if p c then String c (take_while p s') else EmptyString
  end.

(** A match that starts at the head of [s]; the value is capture group 1.
    Nothing follows the group in the expression, so the greedy run is the
    capture and there is no backtracking. *)
Definition match_here (r : regex) (s : string) : option string :=
  match strip_prefix (marker r) s with
  | None => None
  | Some rest =>
      match take_while (class r) rest with
      | EmptyString => None
      | cap => Some cap
      end
  end.

(** [s.match(r)] for an expression without the global flag: the match at
    the leftmost start position, [None] for [null].  Only capture group 1
    is used by the caller ([const [, x] = ...]). *)
Fixpoint str_match (r : regex) (s : string) : option string :=
  match match_here r s with
  | Some cap => Some cap
  | None =>
      match s with
      | EmptyString => None
      | String _ s' => str_match r s'
      end
  end.

(** The first character of [s] is in the class [p]. *)
Definition head_in (p : ascii -> bool) (s : string) : bool :=
  match s with
  | EmptyString => false
  | String c _ => p c
  end.

(** The text after its first [n] characters. *)
Fixpoint drop (n : nat) (s : string) : string :=
  match n, s with
  | O, _ => s
  | S _, EmptyString => EmptyString
  | S n', String _ s' => drop n' s'
  end.

(** The marker of [r] stands at the head of [s] and a character of the class
    follows it: a match can start here. *)
Definition usable_marker (r : regex) (s : string) : bool :=
  String.prefix (marker r) s
  && head_in (class r) (drop (String.length (marker r)) s).

(** In the text [pre ++ rest], no match can start at a position inside
    [pre]. *)
Fixpoint no_usable_marker_before (r : regex) (pre rest : string) : bool :=
  match pre with
  | EmptyString => true
  | String _ pre' =>
      negb (usable_marker r (pre ++ rest))
      && no_usable_marker_before r pre' rest
  end.

(** [s] has [sub] as a contiguous part. *)
Definition contains (sub s : string) : Prop :=
  exists pre post, s = pre ++ sub ++ post.

Definition all_chars (p : ascii -> bool) (s : string) : Prop :=
  forall c, In c (list_ascii_of_string s) -> p c = true.

End Regex.

(* ------------------------------------------------------------------ *)
(** ** [Number] on a run of decimal digits *)

Module JsNumber.

Local Open Scope Z_scope.

(** The Number values that [Number] can return on a non-empty run of decimal
    digits: an integer-valued double, or [Infinity] when the run is too
    long for a double. *)
Inductive number := Finite (z : Z) | Infinity.

Definition digit_value (c : ascii) : Z := Z.of_nat (nat_of_ascii c) - 48.

Fixpoint decimal_from (acc : Z) (s : string) : Z :=
  match s with
  | EmptyString => acc
  | String c s' => decimal_from (10 * acc + digit_value c) s'
  end.

(** The mathematical value of a run of decimal digits. *)
Definition decimal (s : string) : Z := decimal_from 0 s.

(** The double nearest to a non-negative integer, ties to even: integers
    below 2^53 are doubles; above, one keeps 53 significant bits. *)
Definition round_to_double (z : Z) : number :=
  if z <? 2 ^ 53 then Finite z
  else
    let e := Z.log2 z - 52 in
    let q := Z.shiftr z e in
    let r := Z.land z (Z.ones e) in
    let half := 2 ^ (e - 1) in
    let q' :=
      if r <? half then q
      else if half <? r then q + 1
      else if Z.even q then q else q + 1 in
    let v := q' * 2 ^ e in
    if 2 ^ 1024 <=? v then Infinity else Finite v.

(** [Number(s)] for [s] a run of decimal digits. *)
Definition Number (s : string) : number := round_to_double (decimal s).

Definition is_positive_integer (x : number) : Prop :=
  match x with Finite z => 0 < z | Infinity => False end.

Definition is_nonnegative (x : number) : Prop :=
  match x with Finite z => 0 <= z | Infinity => True end.

End JsNumber.

(* ------------------------------------------------------------------ *)
(** ** Effects: a log of events and exceptions *)

Module Effects.

Local Open Scope list_scope.

(** What can be thrown while [authenticate] runs: the two error classes of
    the module, and the rejections and errors that Node raises inside the
    [try] block ([exec] rejects, [null] is destructured, [readFile]
    rejects). *)
Inductive exn :=
| InvalidPlatformError
| ClientNotFoundError
| ExecError
| TypeError
| FsError.

(** What a call does to the outside.  [SetTimeout] carries the delay as it
    is handed to [setTimeout]. *)
Inductive event :=
| PlatformChecked
| Exec (command : string)
| ReadFile (path : string)
| SetTimeout (delay : Z).

Inductive outcome (A : Type) :=
| Returned (a : A)
| Thrown (e : exn).
Arguments Returned {A} a.
Arguments Thrown {A} e.

(** A computation: the events it emitted, and how it ended. *)
Definition io (A : Type) : Type := (list event * outcome A)%type.

Definition ret {A} (a : A) : io A := ([], Returned a).
Definition throw {A} (e : exn) : io A := ([], Thrown e).
Definition emit (ev : event) : io unit := ([ev], Returned tt).

Definition bind {A B} (m : io A) (k : A -> io B) : io B :=
  match m with
  | (evs, Returned a) => let (evs', r) := k a in (evs ++ evs', r)
  | (evs, Thrown e) => (evs, Thrown e)
  end.

(** [try { m } catch { h }] *)
Definition try_catch {A} (m : io A) (h : exn -> io A) : io A :=
  match m with
  | (evs, Thrown e) => let (evs', r) := h e in (evs ++ evs', r)
  | (evs, Returned a) => (evs, Returned a)
  end.

Declare Scope io_scope.
Delimit Scope io_scope with io.
Notation "x <- m ;; k" := (bind m (fun x => k))
  (at level 61, m at next level, right associativity) : io_scope.

End Effects.

(* ------------------------------------------------------------------ *)
(** ** The module [authentication.ts] *)

Module Auth.

Import Regex JsNumber Effects.
Local Open Scope list_scope.

Definition DEFAULT_POLL_INTERVAL : Z := 2500.

Record Credentials := {
  port : number;
  password : string;
  pid : number;
  certificate : option string
}.

(** Every field is optional: [None] is [undefined]. [pollInterval] is the
    number handed to [setTimeout]. *)
Module Options.
Record AuthenticationOptions := {
  awaitConnection : option bool;
  pollInterval : option Z;
  certificate : option string;
  unsafe : option bool
}.
End Options.
Import Options (AuthenticationOptions).

(** The host the call runs on: [process.platform], and what [exec] and
    [fs.readFile] answer during the attempt of a given index ([None]: the
    promise rejects). *)
Record Host := {
  platform : string;
  exec : nat -> string -> option string;
  readFile : nat -> string -> option string
}.

(** [options?.field] *)
Definition chain {A} (options : option AuthenticationOptions)
    (field : AuthenticationOptions -> option A) : option A :=
  match options with
  | Some o => field o
  | None => None
  end.

(** Truthiness of an optional boolean and of an optional string. *)
Definition truthy (b : option bool) : bool :=
  match b with
  | Some true => true
  | _ => false
  end.

Definition truthy_string (s : option string) : bool :=
  match s with
  | Some (String _ _) => true
  | _ => false
  end.

(** [typeof x === 'undefined'] *)
Definition is_undefined {A} (x : option A) : bool :=
  match x with
  | None => true
  | Some _ => false
  end.

(** [x ?? d] *)
Definition nullish {A} (x : option A) (d : A) : A :=
  match x with
  | Some v => v
  | None => d
  end.

(** [l.includes(s)] *)
Definition includes (l : list string) (s : string) : bool :=
  existsb (String.eqb s) l.

Definition supported_platforms : list string := ["win32"; "linux"; "darwin"].

Definition wmic_command : string :=
  "WMIC PROCESS WHERE name='LeagueClientUx.exe' GET CommandLine".
Definition ps_command : string :=
  "ps x -o args | grep 'LeagueClientUx'".

(** [path.join(__dirname, '..', 'riotgames.pem')], relative to the
    directory of the module. *)
Definition certificate_path : string := "../riotgames.pem".

Section Call.

Variable options : option AuthenticationOptions.
Variable host : Host.

Local Open Scope io_scope.

(** [await exec(command)], in the attempt of index [n]. *)
Definition await_exec (n : nat) (command : string) : io string :=
  _ <- emit (Exec command) ;;
  match exec host n command with
  | Some stdout => ret stdout
  | None => throw ExecError
  end.

(** [await fs.readFile(path, 'utf8')], in the attempt of index [n]. *)
Definition await_readFile (n : nat) (path : string) : io string :=
  _ <- emit (ReadFile path) ;;
  match readFile host n path with
  | Some text => ret text
  | None => throw FsError
  end.

(** [const [, x] = m!]: destructuring [null] throws a TypeError. *)
Definition destructure (m : option string) : io string :=
  match m with
  | Some capture => ret capture
  | None => throw TypeError
  end.

Definition command : string :=
  if String.eqb (platform host) "win32" then wmic_command else ps_command.

(** [options?.unsafe || typeof options?.unsafe === 'undefined'] *)
Definition unsafe_flag : bool :=
  truthy (chain options Options.unsafe)
  || is_undefined (chain options Options.unsafe).

(** The attempt of index [n]. *)
Definition tryAuthenticate (n : nat) : io Credentials :=
  try_catch
    (stdout <- await_exec n command ;;
     port <- destructure (str_match portRegex stdout) ;;
     password <- destructure (str_match passwordRegex stdout) ;;
     pid <- destructure (str_match pidRegex stdout) ;;
     let unsafe := unsafe_flag in
     certificate <-
       (if truthy_string (chain options Options.certificate)
        then ret (chain options Options.certificate)
        else if unsafe then ret None
        else (text <- await_readFile n certificate_path ;; ret (Some text))) ;;
     ret {| port := Number port;
            pid := Number pid;
            password := password;
            certificate := certificate |})
    (fun _ => throw ClientNotFoundError).

(** *** The promise returned by [authenticate] *)

Inductive phase :=
| Attempting (n : nat)           (* the attempt [n] has called [exec] and waits *)
| Waiting (n : nat) (delay : Z)  (* attempt [n] failed, the timer is pending *)
| Succeeded (c : Credentials)    (* resolved *)
| Failed (e : exn).              (* rejected *)

(** [abandoned]: the caller has dropped the promise.  The module offers
    nothing to tell the call about it. *)
Record call := {
  state : phase;
  log : list event;
  abandoned : bool
}.

Inductive input :=
| Progress   (* [exec] answers and the attempt ends, or the timer fires *)
| Abandon.   (* the caller stops waiting for the promise *)

Definition interval : Z :=
  nullish (chain options Options.pollInterval) DEFAULT_POLL_INTERVAL.

(** [tryAuthenticate()] runs at once up to its first [await]: the call of
    [exec] is made when the attempt starts.  [after_exec n] is what is left
    of the attempt [n], and happens when [exec] has answered. *)
Definition after_exec (n : nat) : list event :=
  tl (fst (tryAuthenticate n)).

(** The end of [function self(resolve, reject)] for the attempt [n]:
    [.then(resolve)], [.catch(_ => setTimeout(self, interval, ...))]. *)
Definition self (n : nat) : phase * list event :=
  match snd (tryAuthenticate n) with
  | Returned result => (Succeeded result, after_exec n)
  | Thrown _ => (Waiting n interval, after_exec n ++ [SetTimeout interval])
  end.

(** The end of [return tryAuthenticate()]. *)
Definition once (n : nat) : phase * list event :=
  match snd (tryAuthenticate n) with
  | Returned result => (Succeeded result, after_exec n)
  | Thrown e => (Failed e, after_exec n)
  end.

Definition step (c : call) (i : input) : call :=
  match i with
  | Abandon =>
      {| state := state c; log := log c; abandoned := true |}
  | Progress =>
      match state c with
      | Attempting n =>
          let (st, evs) :=
            if truthy (chain options Options.awaitConnection)
            then self n else once n in
          {| state := st; log := log c ++ evs; abandoned := abandoned c |}
      | Waiting n _ =>
          (* the timer fires: [self] runs again and starts the next
             attempt, which calls [exec] at once *)
          {| state := Attempting (S n); log := log c ++ [Exec command];
             abandoned := abandoned c |}
      | Succeeded _ | Failed _ => c
      end
  end.

(** The synchronous part of [authenticate]: the platform check, then, in
    either mode, the first attempt is started and calls [exec]. *)
Definition start : call :=
  if negb (includes supported_platforms (platform host))
  then {| state := Failed InvalidPlatformError;
          log := [PlatformChecked]; abandoned := false |}
  else {| state := Attempting 0;
          log := [PlatformChecked; Exec command]; abandoned := false |}.

Definition authenticate (inputs : list input) : call :=
  fold_left step inputs start.

(** The events of the attempts [0 .. n-1] when each one fails in polling
    mode: what the attempt did, then the timer it set. *)
Fixpoint failed_rounds (n : nat) : list event :=
  match n with
  | O => []
  | S k => failed_rounds k ++ fst (tryAuthenticate k) ++ [SetTimeout interval]
  end.

Definition fails (n : nat) : Prop :=
  exists e, snd (tryAuthenticate n) = Thrown e.

(** What a call in polling mode can look like on a supported platform. *)
Inductive polling : call -> Prop :=
| polling_attempting n ab :
    (forall k, k < n -> fails k) ->
    polling {| state := Attempting n;
               log := PlatformChecked :: failed_rounds n ++ [Exec command];
               abandoned := ab |}
| polling_waiting n ab :
    (forall k, k < S n -> fails k) ->
    polling {| state := Waiting n interval;
               log := PlatformChecked :: failed_rounds (S n);
               abandoned := ab |}
| polling_succeeded n c ab :
    (forall k, k < n -> fails k) ->
    snd (tryAuthenticate n) = Returned c ->
    polling {| state := Succeeded c;
               log := PlatformChecked
                      :: failed_rounds n ++ fst (tryAuthenticate n);
               abandoned := ab |}.

End Call.

(** Counting in a log. *)
Definition is_exec (ev : event) : bool :=
  match ev with Exec _ => true | _ => false end.
Definition is_platform_check (ev : event) : bool :=
  match ev with PlatformChecked => true | _ => false end.
Definition is_timeout (ev : event) : bool :=
  match ev with SetTimeout _ => true | _ => false end.

Definition count (p : event -> bool) (l : list event) : nat :=
  length (filter p l).

Definition settled (p : phase) : bool :=
  match p with
  | Succeeded _ | Failed _ => true
  | _ => false
  end.

Definition is_progress (i : input) : bool :=
  match i with Progress => true | Abandon => false end.

End Auth.

(* ------------------------------------------------------------------ *)
(** ** Concrete inputs *)

Module Samples.

Import Regex JsNumber Effects Auth.

(** The arguments of the example of the specification. *)
Definition sample_arguments : string :=
  "--app-port=56789 --remoting-auth-token=abc-123 --app-pid=4321".

Definition options_with (await : option bool) (cert : option string)
    (unsafe : option bool) : option Options.AuthenticationOptions :=
  Some {| Options.awaitConnection := await;
          Options.pollInterval := None;
          Options.certificate := cert;
          Options.unsafe := unsafe |}.

(** Polling every [ms] milliseconds. *)
Definition polling_every (ms : Z) : option Options.AuthenticationOptions :=
  Some {| Options.awaitConnection := Some true;
          Options.pollInterval := Some ms;
          Options.certificate := None;
          Options.unsafe := None |}.

(** A Linux host on which every [exec] and every [readFile] answer the
    same. *)
Definition linux (stdout pem : option string) : Host :=
  {| platform := "linux";
     exec := fun _ _ => stdout;
     readFile := fun _ _ => pem |}.

(** The client appears at the attempt of index [k]. *)
Definition linux_from (k : nat) (stdout : string) : Host :=
  {| platform := "linux";
     exec := fun n _ => if (n <? k)%nat then None else Some stdout;
     readFile := fun _ _ => None |}.

Definition freebsd : Host :=
  {| platform := "freebsd";
     exec := fun _ _ => Some sample_arguments;
     readFile := fun _ _ => None |}.

End Samples.

(* ------------------------------------------------------------------ *)
(** ** Facts about the regular expressions *)

Module RegexFacts.

Import Regex.

Lemma strip_prefix_none_of_prefix lit s :
  String.prefix lit s = false -> strip_prefix lit s = None.
Proof.
  revert s; induction lit as [|a lit IH]; intros [|b s] H; simpl in *;
    try discriminate; try reflexivity.
  - destruct (ascii_dec a b) as [->|Hab].
    + rewrite Ascii.eqb_refl. now apply IH.
    + destruct (Ascii.eqb_spec a b); [contradiction|reflexivity].
Qed.

Lemma strip_prefix_drop lit s :
  String.prefix lit s = true ->
  strip_prefix lit s = Some (drop (String.length lit) s).
Proof.
  revert s; induction lit as [|a lit IH]; intros [|b s] H; simpl in *;
    try discriminate; try reflexivity.
  destruct (ascii_dec a b) as [->|Hab]; [|discriminate].
  rewrite Ascii.eqb_refl. now apply IH.
Qed.

(** Where no match can start, none does. *)
Lemma match_here_none_of_unusable r s :
  usable_marker r s = false -> match_here r s = None.
Proof.
  unfold usable_marker, match_here. intros H.
  destruct (String.prefix (marker r) s) eqn:Hp.
  - rewrite (strip_prefix_drop _ _ Hp). cbn [andb] in H.
    destruct (drop (String.length (marker r)) s) as [|c t]; [reflexivity|].
    cbn [head_in] in H. cbn [take_while]. now rewrite H.
  - now rewrite (strip_prefix_none_of_prefix _ _ Hp).
Qed.

(** The search skips a stretch of text in which no match can start. *)
Lemma str_match_skip r pre rest :
  no_usable_marker_before r pre rest = true ->
  str_match r (pre ++ rest) = str_match r rest.
Proof.
  induction pre as [|c pre IH]; intros H; [reflexivity|].
  cbn [no_usable_marker_before] in H. apply andb_true_iff in H as [Hp Hrest].
  apply negb_true_iff in Hp.
  change ((String c pre ++ rest)%string) with (String c (pre ++ rest)) in *.
  cbn [str_match]. rewrite (match_here_none_of_unusable _ _ Hp).
  now apply IH.
Qed.

Lemma take_while_all p s : all_chars p (take_while p s).
Proof.
  induction s as [|c s IH]; intros x Hx; simpl in Hx; [contradiction|].
  destruct (p c) eqn:Hc; simpl in Hx; [|contradiction].
  destruct Hx as [<-|Hx]; [assumption|now apply IH].
Qed.

Lemma match_here_some r s cap :
  match_here r s = Some cap -> cap <> EmptyString /\ all_chars (class r) cap.
Proof.
  unfold match_here. destruct (strip_prefix (marker r) s) as [rest|]; [|discriminate].
  pose proof (take_while_all (class r) rest) as Hall.
  destruct (take_while (class r) rest) as [|c t] eqn:E; [discriminate|].
  intros [= <-]. split; [discriminate|exact Hall].
Qed.

(** A capture is a non-empty run of characters of the class. *)
Lemma str_match_some r s cap :
  str_match r s = Some cap -> cap <> EmptyString /\ all_chars (class r) cap.
Proof.
  induction s as [|c s IH]; cbn [str_match].
  - destruct (match_here r "") eqn:E; [|discriminate].
    intros [= <-]. now apply (match_here_some r "").
  - destruct (match_here r (String c s)) eqn:E.
    + intros [= <-]. now apply (match_here_some r (String c s)).
    + exact IH.
Qed.

End RegexFacts.

(** ** Facts about [Number] *)

Module NumberFacts.

Import Regex JsNumber.
Local Open Scope Z_scope.

Lemma digit_value_nonneg c : is_digit c = true -> 0 <= digit_value c <= 9.
Proof.
  unfold is_digit, digit_value. cbv zeta. intros H.
  apply andb_true_iff in H as [H1 H2].
  apply Nat.leb_le in H1. apply Nat.leb_le in H2.
  generalize dependent (nat_of_ascii c). intros n H1 H2. lia.
Qed.

Lemma decimal_from_nonneg s :
  all_chars is_digit s -> forall acc, 0 <= acc -> 0 <= decimal_from acc s.
Proof.
  induction s as [|c s IH]; intros Hall acc Hacc; cbn [decimal_from];
    [assumption|].
  apply IH.
  - intros x Hx. apply Hall. simpl. now right.
  - pose proof (digit_value_nonneg c (Hall c (or_introl eq_refl))). lia.
Qed.

Lemma round_to_double_nonneg z : 0 <= z -> is_nonnegative (round_to_double z).
Proof.
  intros Hz. unfold round_to_double.
  destruct (z <? 2 ^ 53); [exact Hz|].
  cbv zeta.
  set (e := Z.log2 z - 52).
  set (q := Z.shiftr z e).
  assert (Hq : 0 <= q) by (apply Z.shiftr_nonneg; exact Hz).
  set (q' := if Z.land z (Z.ones e) <? 2 ^ (e - 1) then q
             else if 2 ^ (e - 1) <? Z.land z (Z.ones e) then q + 1
             else if Z.even q then q else q + 1).
  assert (Hq' : 0 <= q').
  { unfold q'. repeat match goal with |- context [if ?b then _ else _] =>
      destruct b end; lia. }
  destruct (2 ^ 1024 <=? q' * 2 ^ e); [exact I|].
  simpl. apply Z.mul_nonneg_nonneg; [exact Hq'|].
  apply Z.pow_nonneg. lia.
Qed.

(** [Number] of a run of digits is never negative and never NaN. *)
Lemma Number_nonneg s : all_chars is_digit s -> is_nonnegative (Number s).
Proof.
  intros H. apply round_to_double_nonneg.
  apply decimal_from_nonneg; [exact H|lia].
Qed.

(** Below 2^53 the digits are read exactly, in base 10. *)
Lemma Number_exact s : decimal s < 2 ^ 53 -> Number s = Finite (decimal s).
Proof.
  intros H. unfold Number, round_to_double.
  apply Z.ltb_lt in H. now rewrite H.
Qed.

End NumberFacts.

(* ------------------------------------------------------------------ *)
(** ** One attempt *)

Module AttemptFacts.

Import Regex JsNumber Effects Auth.
Local Open Scope list_scope.

Section Attempt.

Variable options : option Options.AuthenticationOptions.
Variable host : Host.

(** [tryAuthenticate], case by case. *)
Lemma tryAuthenticate_cases n :
  tryAuthenticate options host n =
  match exec host n (command host) with
  | None => ([Exec (command host)], Thrown ClientNotFoundError)
  | Some stdout =>
      match str_match portRegex stdout,
            str_match passwordRegex stdout,
            str_match pidRegex stdout with
      | Some p, Some pw, Some pi =>
          if truthy_string (chain options Options.certificate)
          then ([Exec (command host)],
                Returned {| port := Number p; password := pw;
                            pid := Number pi;
                            certificate := chain options Options.certificate |})
          else if unsafe_flag options
          then ([Exec (command host)],
                Returned {| port := Number p; password := pw;
                            pid := Number pi; certificate := None |})
          else
            match readFile host n certificate_path with
            | Some text =>
                ([Exec (command host); ReadFile certificate_path],
                 Returned {| port := Number p; password := pw;
                             pid := Number pi; certificate := Some text |})
            | None =>
                ([Exec (command host); ReadFile certificate_path],
                 Thrown ClientNotFoundError)
            end
      | _, _, _ => ([Exec (command host)], Thrown ClientNotFoundError)
      end
  end.
Proof.
  unfold tryAuthenticate, await_exec, await_readFile.
  destruct (exec host n (command host)) as [stdout|]; [|reflexivity].
  cbn [bind emit ret app].
  destruct (str_match portRegex stdout) as [p|]; [|reflexivity].
  destruct (str_match passwordRegex stdout) as [pw|]; [|reflexivity].
  destruct (str_match pidRegex stdout) as [pi|]; [|reflexivity].
  cbn [bind destructure ret app].
  destruct (truthy_string (chain options Options.certificate)); [reflexivity|].
  destruct (unsafe_flag options); [reflexivity|].
  destruct (readFile host n certificate_path); reflexivity.
Qed.

(** An attempt throws nothing but [ClientNotFoundError]. *)
Lemma tryAuthenticate_thrown n e :
  snd (tryAuthenticate options host n) = Thrown e -> e = ClientNotFoundError.
Proof.
  rewrite tryAuthenticate_cases.
  repeat match goal with
         | |- context [match ?x with _ => _ end] => destruct x
         end; simpl; congruence.
Qed.

(** An attempt runs the listing command once, first, and neither checks
    the platform nor sets a timer. *)
Lemma tryAuthenticate_events n :
  exists rest,
    fst (tryAuthenticate options host n) = Exec (command host) :: rest
    /\ (rest = [] \/ rest = [ReadFile certificate_path]).
Proof.
  rewrite tryAuthenticate_cases.
  repeat match goal with
         | |- context [match ?x with _ => _ end] => destruct x
         end; simpl; eauto.
Qed.

(** Credentials come from a listing in which the three expressions
    matched. *)
Lemma tryAuthenticate_returned n c :
  snd (tryAuthenticate options host n) = Returned c ->
  exists stdout p pw pi,
    exec host n (command host) = Some stdout
    /\ str_match portRegex stdout = Some p
    /\ str_match passwordRegex stdout = Some pw
    /\ str_match pidRegex stdout = Some pi
    /\ port c = Number p /\ password c = pw /\ pid c = Number pi.
Proof.
  rewrite tryAuthenticate_cases.
  destruct (exec host n (command host)) as [stdout|] eqn:Ex; [|discriminate].
  destruct (str_match portRegex stdout) as [p|] eqn:Ep; [|discriminate].
  destruct (str_match passwordRegex stdout) as [pw|] eqn:Ew; [|discriminate].
  destruct (str_match pidRegex stdout) as [pi|] eqn:Ei; [|discriminate].
  destruct (truthy_string (chain options Options.certificate));
    [|destruct (unsafe_flag options);
      [|destruct (readFile host n certificate_path); [|discriminate]]];
    cbn [snd]; intros [= <-]; exists stdout, p, pw, pi;
    repeat split; assumption || reflexivity.
Qed.

(** One expression that does not match is enough for the attempt to
    fail. *)
Lemma tryAuthenticate_missing n stdout :
  exec host n (command host) = Some stdout ->
  str_match portRegex stdout = None
  \/ str_match passwordRegex stdout = None
  \/ str_match pidRegex stdout = None ->
  snd (tryAuthenticate options host n) = Thrown ClientNotFoundError.
Proof.
  intros Hexec Hnone. rewrite tryAuthenticate_cases, Hexec.
  destruct (str_match portRegex stdout), (str_match passwordRegex stdout),
    (str_match pidRegex stdout); try reflexivity;
    destruct Hnone as [H|[H|H]]; discriminate.
Qed.

End Attempt.

End AttemptFacts.

(* ------------------------------------------------------------------ *)
(** ** Properties of one attempt *)

Import Regex JsNumber Effects Auth Samples.
Local Open Scope list_scope.

(** C4: an attempt returns credentials only when the listing was obtained and
    the three expressions matched in it, the three fields being read from the
    three captures; when any of the three expressions does not match, the
    attempt throws [ClientNotFoundError].  A result is a whole record or an
    error, never a part of a record. *)
Theorem attempt_all_or_nothing options host n :
  (forall c,
      snd (tryAuthenticate options host n) = Returned c ->
      exists stdout p pw pi,
        exec host n (command host) = Some stdout
        /\ str_match portRegex stdout = Some p
        /\ str_match passwordRegex stdout = Some pw
        /\ str_match pidRegex stdout = Some pi
        /\ port c = Number p /\ password c = pw /\ pid c = Number pi)
  /\ (forall stdout,
         exec host n (command host) = Some stdout ->
         str_match portRegex stdout = None
         \/ str_match passwordRegex stdout = None
         \/ str_match pidRegex stdout = None ->
         snd (tryAuthenticate options host n) = Thrown ClientNotFoundError).
Proof.
  split.
  - intros c. apply AttemptFacts.tryAuthenticate_returned.
  - intros stdout. apply AttemptFacts.tryAuthenticate_missing.
Qed.

(** C5, the counterexample: with neither [unsafe] nor an override the result
    has no certificate although the bundled file reads ["PEM"]; and the
    override [""] is not the certificate of the result. *)
Lemma certificate_rule_counterexample :
  snd (tryAuthenticate (options_with None None None)
         (linux (Some sample_arguments) (Some "PEM")) 0)
  = Returned {| port := Finite 56789; password := "abc-123";
                pid := Finite 4321; certificate := None |}
  /\ snd (tryAuthenticate (options_with None (Some "") (Some true))
            (linux (Some sample_arguments) (Some "PEM")) 0)
     = Returned {| port := Finite 56789; password := "abc-123";
                   pid := Finite 4321; certificate := None |}.
Proof. split; vm_compute; reflexivity. Qed.

(** C5, amended: in a successful result, a non-empty override is the
    certificate whatever [unsafe] is; without one (absent or empty), the
    certificate is absent when [unsafe] is unset or true, whatever the bundled
    file holds, and is the content of the bundled file when [unsafe] is
    explicitly false. *)
Theorem certificate_of_result options host n c :
  snd (tryAuthenticate options host n) = Returned c ->
  (forall s, chain options Options.certificate = Some s -> s <> EmptyString ->
             certificate c = Some s)
  /\ (truthy_string (chain options Options.certificate) = false ->
      chain options Options.unsafe = None
      \/ chain options Options.unsafe = Some true ->
      certificate c = None)
  /\ (truthy_string (chain options Options.certificate) = false ->
      chain options Options.unsafe = Some false ->
      exists text, readFile host n certificate_path = Some text
                   /\ certificate c = Some text).
Proof.
  rewrite AttemptFacts.tryAuthenticate_cases. unfold unsafe_flag.
  destruct (exec host n (command host)) as [stdout|]; [|discriminate].
  destruct (str_match portRegex stdout) as [p|]; [|discriminate].
  destruct (str_match passwordRegex stdout) as [pw|]; [|discriminate].
  destruct (str_match pidRegex stdout) as [pi|]; [|discriminate].
  destruct (chain options Options.certificate) as [[|a s']|] eqn:Ec;
    destruct (chain options Options.unsafe) as [[|]|] eqn:Eu;
    cbn [truthy_string truthy is_undefined orb];
    try destruct (readFile host n certificate_path) as [text|];
    cbn [snd]; intros H; inversion H; subst; cbn [certificate];
    (split; [|split]);
    try (intros ? [= <-] ?); try congruence;
    try (intros _ [?|?]); try (intros _ ?); try congruence; eauto.
Qed.

Lemma certificate_of_result_witness :
  (forall s,
      chain (options_with None None (Some false)) Options.certificate = Some s ->
      s <> EmptyString -> Some "PEM" = Some s)
  /\ (truthy_string (chain (options_with None None (Some false))
                       Options.certificate) = false ->
      chain (options_with None None (Some false)) Options.unsafe = None
      \/ chain (options_with None None (Some false)) Options.unsafe = Some true ->
      Some "PEM" = None)
  /\ (truthy_string (chain (options_with None None (Some false))
                       Options.certificate) = false ->
      chain (options_with None None (Some false)) Options.unsafe = Some false ->
      exists text,
        readFile (linux (Some sample_arguments) (Some "PEM")) 0 certificate_path
        = Some text /\ Some "PEM" = Some text).
Proof.
  apply (certificate_of_result (options_with None None (Some false))
           (linux (Some sample_arguments) (Some "PEM")) 0
           {| port := Finite 56789; password := "abc-123";
              pid := Finite 4321; certificate := Some "PEM" |}).
  vm_compute. reflexivity.
Defined.

(** C10, the counterexample: the override is [""], [unsafe] is explicitly
    false and the bundled file is empty; the certificate of the result is
    the empty string. *)
Lemma empty_override_counterexample :
  snd (tryAuthenticate (options_with None (Some "") (Some false))
         (linux (Some sample_arguments) (Some "")) 0)
  = Returned {| port := Finite 56789; password := "abc-123";
                pid := Finite 4321; certificate := Some "" |}.
Proof. vm_compute. reflexivity. Qed.

(** C10, amended: an attempt with the override [""] is the attempt without
    an override: same events, same outcome.  The certificate of its result is
    absent when [unsafe] is true or unset and is the content of the bundled
    file when [unsafe] is explicitly false; it is the empty string only when
    that file is itself empty. *)
Theorem empty_override_is_no_override a p u host n :
  let with_empty :=
    Some {| Options.awaitConnection := a; Options.pollInterval := p;
            Options.certificate := Some ""; Options.unsafe := u |} in
  let without :=
    Some {| Options.awaitConnection := a; Options.pollInterval := p;
            Options.certificate := None; Options.unsafe := u |} in
  tryAuthenticate with_empty host n = tryAuthenticate without host n
  /\ forall c,
      snd (tryAuthenticate with_empty host n) = Returned c ->
      (u = Some false ->
       exists text, readFile host n certificate_path = Some text
                    /\ certificate c = Some text)
      /\ (u <> Some false -> certificate c = None)
      /\ (certificate c = Some "" ->
          u = Some false /\ readFile host n certificate_path = Some "").
Proof.
  intros with_empty without. split; [reflexivity|].
  intros c. rewrite AttemptFacts.tryAuthenticate_cases.
  unfold unsafe_flag, with_empty. cbn [chain Options.certificate Options.unsafe
                                         truthy_string].
  destruct (exec host n _) as [stdout|]; [|discriminate].
  destruct (str_match portRegex stdout) as [pt|]; [|discriminate].
  destruct (str_match passwordRegex stdout) as [pw|]; [|discriminate].
  destruct (str_match pidRegex stdout) as [pi|]; [|discriminate].
  destruct u as [[|]|]; cbn [truthy is_undefined orb];
    try destruct (readFile host n certificate_path) as [text|];
    cbn [snd]; intros H; inversion H; subst; cbn [certificate];
    repeat split; try congruence; eauto.
Qed.

(** C9, the counterexample: the port and the process id are read as 0. *)
Lemma zero_port_counterexample :
  snd (tryAuthenticate None
         (linux (Some "--app-port=0 --remoting-auth-token=x --app-pid=0") None) 0)
  = Returned {| port := Finite 0; password := "x"; pid := Finite 0;
                certificate := None |}
  /\ ~ is_positive_integer (Finite 0).
Proof. split; [vm_compute; reflexivity | simpl; lia]. Qed.

(** C9, amended: in a successful result the port and the process id are
    numbers that are not negative (an integer, or Infinity for a run of
    digits beyond the range of a double), and the password is a non-empty
    string of word characters and hyphens. *)
Theorem credentials_fields options host n c :
  snd (tryAuthenticate options host n) = Returned c ->
  is_nonnegative (port c)
  /\ is_nonnegative (pid c)
  /\ password c <> EmptyString
  /\ all_chars is_token (password c).
Proof.
  intros H.
  destruct (AttemptFacts.tryAuthenticate_returned options host n c H)
    as (stdout & p & pw & pi & _ & Hp & Hw & Hi & -> & <- & ->).
  apply RegexFacts.str_match_some in Hp as [_ Hp].
  apply RegexFacts.str_match_some in Hw as [Hw1 Hw2].
  apply RegexFacts.str_match_some in Hi as [_ Hi].
  repeat split; auto using NumberFacts.Number_nonneg.
Qed.

Lemma credentials_fields_witness :
  is_nonnegative (Finite 56789)
  /\ is_nonnegative (Finite 4321)
  /\ "abc-123" <> EmptyString
  /\ all_chars is_token "abc-123".
Proof.
  apply (credentials_fields None (linux (Some sample_arguments) None) 0
           {| port := Finite 56789; password := "abc-123";
              pid := Finite 4321; certificate := None |}).
  vm_compute. reflexivity.
Defined.

(** The three searches in a text that starts with the sample arguments. *)
Lemma sample_port post :
  str_match portRegex (sample_arguments ++ post) = Some "56789".
Proof. reflexivity. Qed.

Lemma sample_password post :
  str_match passwordRegex (sample_arguments ++ post) = Some "abc-123".
Proof. reflexivity. Qed.

Lemma sample_pid post :
  head_in is_digit post = false ->
  str_match pidRegex (sample_arguments ++ post) = Some "4321".
Proof.
  intros H.
  change (str_match pidRegex (sample_arguments ++ post))
    with (Some ("4321" ++ take_while is_digit post)%string).
  destruct post as [|c post]; [reflexivity|].
  cbn [head_in] in H. cbn [take_while]. now rewrite H.
Qed.

(** C7, the counterexample: five listings that contain the sample
    arguments.  In the first a digit follows them and the process id read is
    43210; in the next three an earlier marker with a value is the one
    read, for the port, the password and the process id; in the last the
    bundled certificate is required and cannot be read, and the attempt
    fails. *)
Lemma sample_extraction_counterexample :
  (contains sample_arguments (sample_arguments ++ "0")
   /\ snd (tryAuthenticate None
             (linux (Some (sample_arguments ++ "0")%string) None) 0)
      = Returned {| port := Finite 56789; password := "abc-123";
                    pid := Finite 43210; certificate := None |})
  /\ (contains sample_arguments ("--app-port=1 " ++ sample_arguments)
      /\ snd (tryAuthenticate None
                (linux (Some ("--app-port=1 " ++ sample_arguments)%string) None) 0)
         = Returned {| port := Finite 1; password := "abc-123";
                       pid := Finite 4321; certificate := None |})
  /\ (contains sample_arguments ("--remoting-auth-token=zz " ++ sample_arguments)
      /\ snd (tryAuthenticate None
                (linux (Some ("--remoting-auth-token=zz "
                              ++ sample_arguments)%string) None) 0)
         = Returned {| port := Finite 56789; password := "zz";
                       pid := Finite 4321; certificate := None |})
  /\ (contains sample_arguments ("--app-pid=7 " ++ sample_arguments)
      /\ snd (tryAuthenticate None
                (linux (Some ("--app-pid=7 " ++ sample_arguments)%string) None) 0)
         = Returned {| port := Finite 56789; password := "abc-123";
                       pid := Finite 7; certificate := None |})
  /\ (contains sample_arguments sample_arguments
      /\ snd (tryAuthenticate (options_with None None (Some false))
                (linux (Some sample_arguments) None) 0)
         = Thrown ClientNotFoundError).
Proof.
  repeat split; try (vm_compute; reflexivity).
  - exists "", "0". reflexivity.
  - exists "--app-port=1 ", "". reflexivity.
  - exists "--remoting-auth-token=zz ", "". reflexivity.
  - exists "--app-pid=7 ", "". reflexivity.
  - exists "", "". reflexivity.
Qed.

(** C7, amended: when the listing is [pre ++ sample ++ post], no match of
    any of the three expressions can start inside [pre] (a marker may occur
    there, as long as no character it captures follows it), no digit follows
    the sample, and the certificate step cannot fail (an override is given,
    or [unsafe] is not explicitly false, or the bundled file can be read),
    the attempt succeeds with port 56789, password ["abc-123"] and process
    id 4321, the two numbers being the base-10 values of the captured
    digits. *)
Theorem sample_extraction options host n pre post :
  exec host n (command host) = Some (pre ++ sample_arguments ++ post)%string ->
  no_usable_marker_before portRegex pre (sample_arguments ++ post) = true ->
  no_usable_marker_before passwordRegex pre (sample_arguments ++ post) = true ->
  no_usable_marker_before pidRegex pre (sample_arguments ++ post) = true ->
  head_in is_digit post = false ->
  truthy_string (chain options Options.certificate) = true
  \/ unsafe_flag options = true
  \/ readFile host n certificate_path <> None ->
  exists cert,
    snd (tryAuthenticate options host n)
    = Returned {| port := Finite 56789; password := "abc-123";
                  pid := Finite 4321; certificate := cert |}
    /\ Finite 56789 = Number "56789" /\ decimal "56789" = 56789%Z
    /\ Finite 4321 = Number "4321" /\ decimal "4321" = 4321%Z.
Proof.
  intros Hexec Hport Hpw Hpid Hpost Hcert.
  rewrite AttemptFacts.tryAuthenticate_cases, Hexec.
  rewrite (RegexFacts.str_match_skip portRegex pre _ Hport), sample_port.
  rewrite (RegexFacts.str_match_skip passwordRegex pre _ Hpw), sample_password.
  rewrite (RegexFacts.str_match_skip pidRegex pre _ Hpid), (sample_pid _ Hpost).
  change (Number "56789") with (Finite 56789).
  change (Number "4321") with (Finite 4321).
  destruct (truthy_string (chain options Options.certificate));
    [eexists; repeat split; reflexivity|].
  destruct (unsafe_flag options); [eexists; repeat split; reflexivity|].
  destruct (readFile host n certificate_path) as [text|].
  - eexists; repeat split; reflexivity.
  - destruct Hcert as [H|[H|H]]; try discriminate. now elim H.
Qed.

Lemma sample_extraction_witness :
  exists cert,
    snd (tryAuthenticate None
           (linux (Some ("/opt/LeagueClientUx --app-port=x --app-pid= "
                         ++ sample_arguments ++ " --no-proxy-server")%string)
              None) 0)
    = Returned {| port := Finite 56789; password := "abc-123";
                  pid := Finite 4321; certificate := cert |}
    /\ Finite 56789 = Number "56789" /\ decimal "56789" = 56789%Z
    /\ Finite 4321 = Number "4321" /\ decimal "4321" = 4321%Z.
Proof.
  apply (sample_extraction None
           (linux (Some ("/opt/LeagueClientUx --app-port=x --app-pid= "
                         ++ sample_arguments ++ " --no-proxy-server")%string)
              None) 0
           "/opt/LeagueClientUx --app-port=x --app-pid= " " --no-proxy-server").
  - reflexivity.
  - vm_compute. reflexivity.
  - vm_compute. reflexivity.
  - vm_compute. reflexivity.
  - reflexivity.
  - right. left. reflexivity.
Defined.

(* ------------------------------------------------------------------ *)
(** ** The call as a whole *)

Module CallFacts.

Import Regex JsNumber Effects Auth.
Local Open Scope list_scope.

Section Run.

Variable options : option Options.AuthenticationOptions.
Variable host : Host.

Local Abbreviation step := (Auth.step options host).
Local Abbreviation start := (Auth.start host).
Local Abbreviation authenticate := (Auth.authenticate options host).
Local Abbreviation tryAuthenticate := (Auth.tryAuthenticate options host).
Local Abbreviation interval := (Auth.interval options).

Lemma authenticate_app l1 l2 :
  authenticate (l1 ++ l2) = fold_left step l2 (authenticate l1).
Proof. unfold Auth.authenticate. apply fold_left_app. Qed.

(** An invariant of [start] and [step] holds all along. *)
Lemma authenticate_invariant (P : call -> Prop) :
  P start -> (forall c i, P c -> P (step c i)) ->
  forall inputs, P (authenticate inputs).
Proof.
  intros H0 Hstep inputs. unfold Auth.authenticate.
  generalize dependent start.
  induction inputs as [|i inputs IH]; intros c Hc; simpl; auto.
Qed.

(** A settled promise does not change any more. *)
Lemma settled_stays c inputs :
  settled (state c) = true ->
  state (fold_left step inputs c) = state c
  /\ log (fold_left step inputs c) = log c.
Proof.
  revert c; induction inputs as [|i inputs IH]; intros c H; [now split|].
  cbn [fold_left].
  assert (Hs : state (step c i) = state c /\ log (step c i) = log c).
  { destruct c as [st lg ab]; cbn [state] in H.
    destruct i; cbn [Auth.step state log]; [|now split].
    destruct st; try discriminate; now split. }
  destruct Hs as [Hs Hl].
  destruct (IH (step c i)) as [IH1 IH2]; [now rewrite Hs|].
  split; congruence.
Qed.

(** The state and the log do not depend on [abandoned], and [Abandon]
    touches nothing else. *)
Lemma step_abandon_blind c c' i :
  state c = state c' -> log c = log c' ->
  state (step c i) = state (step c' i) /\ log (step c i) = log (step c' i).
Proof.
  destruct c as [st lg ab], c' as [st' lg' ab']; cbn [state log].
  intros <- <-. destruct i; cbn [Auth.step state log]; [|now split].
  destruct st; cbn [state log]; try (now split).
  destruct (if truthy _ then _ else _) as [st' evs]. now split.
Qed.

Lemma run_without_abandon inputs : forall c c',
  state c = state c' -> log c = log c' ->
  state (fold_left step inputs c)
  = state (fold_left step (filter is_progress inputs) c')
  /\ log (fold_left step inputs c)
     = log (fold_left step (filter is_progress inputs) c').
Proof.
  induction inputs as [|i inputs IH]; intros c c' Hs Hl; [now split|].
  destruct i; cbn [filter is_progress fold_left].
  - destruct (step_abandon_blind c c' Progress Hs Hl). now apply IH.
  - apply IH; cbn [Auth.step state log]; assumption.
Qed.

(** *** The log *)

Lemma attempt_no_platform_check n :
  count is_platform_check (fst (tryAuthenticate n)) = 0.
Proof.
  destruct (AttemptFacts.tryAuthenticate_events options host n)
    as (rest & -> & [->| ->]); reflexivity.
Qed.

Lemma attempt_no_timeout n d :
  ~ In (SetTimeout d) (fst (tryAuthenticate n)).
Proof.
  destruct (AttemptFacts.tryAuthenticate_events options host n)
    as (rest & -> & [->| ->]); simpl; intuition discriminate.
Qed.

Lemma attempt_one_exec n : count is_exec (fst (tryAuthenticate n)) = 1.
Proof.
  destruct (AttemptFacts.tryAuthenticate_events options host n)
    as (rest & -> & [->| ->]); reflexivity.
Qed.

Lemma count_app p l1 l2 : count p (l1 ++ l2) = count p l1 + count p l2.
Proof. unfold count. now rewrite filter_app, length_app. Qed.

(** An attempt is its call of [exec], then the rest. *)
Lemma attempt_events_split n :
  fst (tryAuthenticate n) = Exec (command host) :: after_exec options host n
  /\ (after_exec options host n = []
      \/ after_exec options host n = [ReadFile certificate_path]).
Proof.
  unfold after_exec.
  destruct (AttemptFacts.tryAuthenticate_events options host n)
    as (rest & -> & Hrest). now split.
Qed.

Lemma after_exec_counts n :
  count is_platform_check (after_exec options host n) = 0
  /\ count is_exec (after_exec options host n) = 0
  /\ count is_timeout (after_exec options host n) = 0.
Proof.
  destruct (attempt_events_split n) as [_ [->| ->]]; now repeat split.
Qed.

Lemma self_cases n :
  (exists c, snd (tryAuthenticate n) = Returned c
             /\ self options host n = (Succeeded c, after_exec options host n))
  \/ (fails options host n
      /\ self options host n
         = (Waiting n interval,
            after_exec options host n ++ [SetTimeout interval])).
Proof.
  unfold self, fails. destruct (snd (tryAuthenticate n)) as [c|e].
  - left. eauto.
  - right. eauto.
Qed.

Lemma once_cases n :
  once options host n
  = (match snd (tryAuthenticate n) with
     | Returned c => Succeeded c
     | Thrown e => Failed e
     end, after_exec options host n).
Proof. unfold once. now destruct (snd (tryAuthenticate n)). Qed.

(** The platform is checked first and once. *)
Lemma log_starts_with_check inputs :
  exists rest,
    log (authenticate inputs) = PlatformChecked :: rest
    /\ count is_platform_check rest = 0.
Proof.
  apply (authenticate_invariant
           (fun c => exists rest, log c = PlatformChecked :: rest
                                  /\ count is_platform_check rest = 0)).
  - unfold Auth.start. destruct (negb _); eexists; now split.
  - intros [st lg ab] i (rest & Hl & Hc). cbn [log] in Hl.
    destruct i; cbn [Auth.step state log]; [|eauto].
    destruct st; cbn [log]; eauto.
    + destruct (after_exec_counts n) as (Ha & _ & _).
      destruct (truthy _).
      * destruct (self_cases n) as [(r & _ & ->)|(_ & ->)]; cbn [log];
          rewrite Hl.
        -- exists (rest ++ after_exec options host n). split; [reflexivity|].
           now rewrite count_app, Hc, Ha.
        -- exists (rest ++ after_exec options host n ++ [SetTimeout interval]).
           split; [reflexivity|]. now rewrite !count_app, Hc, Ha.
      * rewrite once_cases; cbn [log]. rewrite Hl.
        exists (rest ++ after_exec options host n). split; [reflexivity|].
        now rewrite count_app, Hc, Ha.
    + rewrite Hl. exists (rest ++ [Exec (command host)]).
      split; [reflexivity|]. now rewrite count_app, Hc.
Qed.

(** On an unsupported platform the call is rejected at once and nothing
    is ever run. *)
Lemma unsupported_rejected inputs :
  includes supported_platforms (platform host) = false ->
  state (authenticate inputs) = Failed InvalidPlatformError
  /\ log (authenticate inputs) = [PlatformChecked].
Proof.
  intros H. unfold Auth.authenticate.
  assert (Hs : start = {| state := Failed InvalidPlatformError;
                          log := [PlatformChecked]; abandoned := false |}).
  { unfold Auth.start. now rewrite H. }
  destruct (settled_stays start inputs) as [H1 H2];
    rewrite Hs in *; auto.
Qed.

Lemma supported_start :
  includes supported_platforms (platform host) = true ->
  start = {| state := Attempting 0;
             log := [PlatformChecked; Exec (command host)];
             abandoned := false |}.
Proof. intros H. unfold Auth.start. now rewrite H. Qed.

(** *** One step from a known state *)

Lemma step_attempt_polling c n :
  truthy (chain options Options.awaitConnection) = true ->
  state c = Attempting n ->
  step c Progress
  = {| state := fst (self options host n);
       log := log c ++ snd (self options host n);
       abandoned := abandoned c |}.
Proof.
  intros Ha Hs. cbn [Auth.step]. rewrite Hs, Ha.
  now destruct (self options host n).
Qed.

Lemma step_attempt_once c n :
  truthy (chain options Options.awaitConnection) = false ->
  state c = Attempting n ->
  step c Progress
  = {| state := fst (once options host n);
       log := log c ++ snd (once options host n);
       abandoned := abandoned c |}.
Proof.
  intros Ha Hs. cbn [Auth.step]. rewrite Hs, Ha.
  now destruct (once options host n).
Qed.

Lemma step_timer c n d :
  state c = Waiting n d ->
  step c Progress
  = {| state := Attempting (S n);
       log := log c ++ [Exec (command host)];
       abandoned := abandoned c |}.
Proof. intros Hs. cbn [Auth.step]. now rewrite Hs. Qed.

(** *** Polling mode *)

(** The log once the attempt [n] has failed and set its timer. *)
Lemma failed_rounds_succ n :
  (PlatformChecked :: failed_rounds options host n ++ [Exec (command host)])
  ++ after_exec options host n ++ [SetTimeout interval]
  = PlatformChecked :: failed_rounds options host (S n).
Proof.
  cbn [failed_rounds]. destruct (attempt_events_split n) as [-> _].
  cbn [app]. now rewrite <- !app_assoc.
Qed.

(** The log once the attempt [n] has returned. *)
Lemma failed_rounds_done n :
  (PlatformChecked :: failed_rounds options host n ++ [Exec (command host)])
  ++ after_exec options host n
  = PlatformChecked :: failed_rounds options host n ++ fst (tryAuthenticate n).
Proof.
  destruct (attempt_events_split n) as [-> _].
  cbn [app]. now rewrite <- !app_assoc.
Qed.

Lemma polling_start :
  includes supported_platforms (platform host) = true ->
  polling options host start.
Proof.
  intros H. rewrite (supported_start H).
  apply (polling_attempting options host 0). intros k Hk. inversion Hk.
Qed.

Lemma polling_step c i :
  truthy (chain options Options.awaitConnection) = true ->
  polling options host c -> polling options host (step c i).
Proof.
  intros Ha Hc. destruct i.
  - destruct Hc as [n ab Hf|n ab Hf|n r ab Hf Hr].
    + rewrite step_attempt_polling with (n := n) by (assumption || reflexivity).
      cbn [log abandoned].
      destruct (self_cases n) as [(r & Hr & ->)|(Hn & ->)]; cbn [fst snd].
      * rewrite failed_rounds_done. now apply polling_succeeded.
      * rewrite failed_rounds_succ.
        apply polling_waiting. intros k Hk.
        destruct (Nat.eq_dec k n) as [->|Hne]; [assumption|].
        apply Hf. lia.
    + rewrite step_timer with (n := n) (d := interval) by reflexivity.
      cbn [log abandoned].
      change ((PlatformChecked :: failed_rounds options host (S n))
              ++ [Exec (command host)])
        with (PlatformChecked
              :: failed_rounds options host (S n) ++ [Exec (command host)]).
      now apply polling_attempting.
    + cbn [Auth.step state]. now apply polling_succeeded.
  - destruct Hc; cbn [Auth.step state log]; now constructor.
Qed.

Lemma polling_always inputs :
  truthy (chain options Options.awaitConnection) = true ->
  includes supported_platforms (platform host) = true ->
  polling options host (authenticate inputs).
Proof.
  intros Ha Hp. apply authenticate_invariant.
  - now apply polling_start.
  - intros c i. now apply polling_step.
Qed.

Lemma failed_rounds_delay n d :
  In (SetTimeout d) (failed_rounds options host n) -> d = interval.
Proof.
  induction n as [|n IH]; cbn [failed_rounds]; [contradiction|].
  rewrite !in_app_iff. intros [H|[H|H]].
  - now apply IH.
  - now apply attempt_no_timeout in H.
  - destruct H as [[= <-]|[]]. reflexivity.
Qed.

Lemma failed_rounds_timeouts n :
  count is_timeout (failed_rounds options host n) = n.
Proof.
  induction n as [|n IH]; cbn [failed_rounds]; [reflexivity|].
  rewrite !count_app, IH.
  destruct (AttemptFacts.tryAuthenticate_events options host n)
    as (rest & -> & [->| ->]); cbn; lia.
Qed.

Lemma failed_rounds_execs n :
  count is_exec (failed_rounds options host n) = n.
Proof.
  induction n as [|n IH]; cbn [failed_rounds]; [reflexivity|].
  rewrite !count_app, IH, attempt_one_exec. cbn. lia.
Qed.

(** After [n] failed attempts the attempt of index [n] is running: it has
    called [exec]. *)
Lemma polling_reaches n :
  truthy (chain options Options.awaitConnection) = true ->
  includes supported_platforms (platform host) = true ->
  (forall k, k < n -> fails options host k) ->
  state (authenticate (repeat Progress (2 * n))) = Attempting n
  /\ log (authenticate (repeat Progress (2 * n)))
     = PlatformChecked :: failed_rounds options host n ++ [Exec (command host)].
Proof.
  intros Ha Hp. induction n as [|n IH]; intros Hf.
  - unfold Auth.authenticate. cbn [Nat.mul repeat fold_left].
    rewrite (supported_start Hp). now split.
  - destruct IH as [IHs IHl]; [intros k Hk; apply Hf; lia|].
    replace (2 * S n) with (2 * n + 2) by lia.
    rewrite repeat_app, authenticate_app. cbn [repeat fold_left].
    set (c := authenticate (repeat Progress (2 * n))) in *.
    rewrite (step_attempt_polling c n Ha IHs).
    destruct (self_cases n) as [(r & Hr & _)|(_ & ->)].
    + destruct (Hf n) as [e He]; [lia|]. congruence.
    + cbn [fst snd].
      rewrite step_timer with (n := n) (d := interval) by reflexivity.
      cbn [state log]. rewrite IHl, failed_rounds_succ. now split.
Qed.

(** After [2 * n + 1] steps of a polling call whose attempts [0 .. n] all
    fail, the timer of attempt [n] is pending. *)
Lemma polling_waits n :
  truthy (chain options Options.awaitConnection) = true ->
  includes supported_platforms (platform host) = true ->
  (forall k, k < S n -> fails options host k) ->
  state (authenticate (repeat Progress (2 * n + 1))) = Waiting n interval
  /\ log (authenticate (repeat Progress (2 * n + 1)))
     = PlatformChecked :: failed_rounds options host (S n).
Proof.
  intros Ha Hp Hf.
  destruct (polling_reaches n Ha Hp) as [Hs Hl];
    [intros j Hj; apply Hf; lia|].
  rewrite repeat_app, authenticate_app. cbn [repeat fold_left].
  set (c := authenticate (repeat Progress (2 * n))) in *.
  rewrite (step_attempt_polling c n Ha Hs).
  destruct (self_cases n) as [(r & Hr & _)|(_ & ->)].
  - destruct (Hf n) as [e He]; [lia|congruence].
  - cbn [fst snd state log]. rewrite Hl, failed_rounds_succ. now split.
Qed.

(** The first attempt that succeeds resolves the promise, for good. *)
Lemma polling_resolves n c rest :
  truthy (chain options Options.awaitConnection) = true ->
  includes supported_platforms (platform host) = true ->
  (forall k, k < n -> fails options host k) ->
  snd (tryAuthenticate n) = Returned c ->
  state (authenticate (repeat Progress (2 * n + 1) ++ rest)) = Succeeded c.
Proof.
  intros Ha Hp Hf Hc.
  destruct (polling_reaches n Ha Hp Hf) as [Hs _].
  rewrite repeat_app, !authenticate_app. cbn [repeat fold_left].
  set (c0 := authenticate (repeat Progress (2 * n))) in *.
  rewrite (step_attempt_polling c0 n Ha Hs).
  destruct (self_cases n) as [(r & Hr & ->)|([e He] & _)]; [|congruence].
  cbn [fst snd].
  match goal with |- state (fold_left _ _ ?x) = _ =>
    destruct (settled_stays x rest eq_refl) as [-> _] end.
  cbn [state]. congruence.
Qed.

End Run.

End CallFacts.

(* ------------------------------------------------------------------ *)
(** ** Properties of the call *)

(** C3: on a platform outside win32, linux and darwin the call is rejected
    with [InvalidPlatformError] in either mode, whatever happens next, and
    its log holds the platform check and nothing else: no command is ever
    run.  On every platform and in every mode the log starts with the
    platform check and holds it exactly once, whatever the number of
    attempts. *)
Theorem platform_checked_once options host inputs :
  (includes supported_platforms (platform host) = false ->
   state (authenticate options host inputs) = Failed InvalidPlatformError
   /\ log (authenticate options host inputs) = [PlatformChecked]
   /\ count is_exec (log (authenticate options host inputs)) = 0)
  /\ (exists rest,
         log (authenticate options host inputs) = PlatformChecked :: rest)
  /\ count is_platform_check (log (authenticate options host inputs)) = 1.
Proof.
  split; [|split].
  - intros H.
    destruct (CallFacts.unsupported_rejected options host inputs H) as [Hs Hl].
    rewrite Hs, Hl. repeat split.
  - destruct (CallFacts.log_starts_with_check options host inputs)
      as (rest & Hl & _). eauto.
  - destruct (CallFacts.log_starts_with_check options host inputs)
      as (rest & -> & Hc).
    unfold count in *. cbn. now rewrite Hc.
Qed.

(** C6: in immediate mode on a supported platform the attempt of index 0 is
    the only one.  The command is run once, when the call is made, and no
    timer is ever set.  Until the attempt ends the promise is pending; once
    it has ended the promise is settled with its outcome (the credentials,
    or [ClientNotFoundError]) and the log is the platform check followed by
    the events of that attempt.  Nothing that comes later changes this. *)
Theorem immediate_mode options host inputs :
  truthy (chain options Options.awaitConnection) = false ->
  includes supported_platforms (platform host) = true ->
  (existsb is_progress inputs = false ->
   state (authenticate options host inputs) = Attempting 0
   /\ log (authenticate options host inputs)
      = [PlatformChecked; Exec (command host)])
  /\ (existsb is_progress inputs = true ->
      state (authenticate options host inputs)
      = match snd (tryAuthenticate options host 0) with
        | Returned c => Succeeded c
        | Thrown _ => Failed ClientNotFoundError
        end
      /\ log (authenticate options host inputs)
         = PlatformChecked :: fst (tryAuthenticate options host 0))
  /\ count is_exec (log (authenticate options host inputs)) = 1
  /\ count is_timeout (log (authenticate options host inputs)) = 0.
Proof.
  intros Ha Hp.
  assert (Hcases :
    (existsb is_progress inputs = false ->
     state (authenticate options host inputs) = Attempting 0
     /\ log (authenticate options host inputs)
        = [PlatformChecked; Exec (command host)])
    /\ (existsb is_progress inputs = true ->
        state (authenticate options host inputs)
        = match snd (tryAuthenticate options host 0) with
          | Returned c => Succeeded c
          | Thrown _ => Failed ClientNotFoundError
          end
        /\ log (authenticate options host inputs)
           = PlatformChecked :: fst (tryAuthenticate options host 0))).
  { destruct (CallFacts.run_without_abandon options host inputs
                (start host) (start host) eq_refl eq_refl) as [Hs Hl].
    unfold authenticate. rewrite Hs, Hl. clear Hs Hl.
    pose proof (CallFacts.supported_start host Hp) as Hstart.
    induction inputs as [|i inputs IH]; cbn [existsb filter].
    - rewrite Hstart. split; [now split|discriminate].
    - destruct i; cbn [is_progress orb]; [|exact IH].
      split; [discriminate|]. intros _. cbn [fold_left].
      rewrite (CallFacts.step_attempt_once options host (start host) 0 Ha)
        by (now rewrite Hstart).
      rewrite CallFacts.once_cases. cbn [fst snd].
      match goal with |- context [fold_left _ ?l ?x] =>
        assert (Hset : settled (state x) = true)
          by (cbn [state]; now destruct (snd (tryAuthenticate options host 0)));
        destruct (CallFacts.settled_stays options host x l Hset) as [-> ->]
      end.
      cbn [state log]. rewrite Hstart. cbn [log app].
      destruct (CallFacts.attempt_events_split options host 0) as [-> _].
      split; [|reflexivity].
      destruct (snd (tryAuthenticate options host 0)) as [c|e] eqn:E;
        [reflexivity|].
      now rewrite (AttemptFacts.tryAuthenticate_thrown options host 0 e E). }
  destruct Hcases as [Hno Hyes]. split; [exact Hno|split; [exact Hyes|]].
  destruct (existsb is_progress inputs).
  - destruct (Hyes eq_refl) as [_ ->].
    change (count ?p (PlatformChecked :: ?l)) with (count p l).
    split; [apply CallFacts.attempt_one_exec|].
    destruct (AttemptFacts.tryAuthenticate_events options host 0)
      as (rest & -> & [->| ->]); reflexivity.
  - destruct (Hno eq_refl) as [_ ->]. now split.
Qed.

Lemma immediate_mode_witness :
  (existsb is_progress [Progress; Progress] = false ->
   state (authenticate None (linux None None) [Progress; Progress])
   = Attempting 0
   /\ log (authenticate None (linux None None) [Progress; Progress])
      = [PlatformChecked; Exec (command (linux None None))])
  /\ (existsb is_progress [Progress; Progress] = true ->
      state (authenticate None (linux None None) [Progress; Progress])
      = match snd (tryAuthenticate None (linux None None) 0) with
        | Returned c => Succeeded c
        | Thrown _ => Failed ClientNotFoundError
        end
      /\ log (authenticate None (linux None None) [Progress; Progress])
         = PlatformChecked :: fst (tryAuthenticate None (linux None None) 0))
  /\ count is_exec
       (log (authenticate None (linux None None) [Progress; Progress])) = 1
  /\ count is_timeout
       (log (authenticate None (linux None None) [Progress; Progress])) = 0.
Proof.
  apply (immediate_mode None (linux None None) [Progress; Progress]);
    reflexivity.
Defined.

(** C2: in polling mode on a supported platform, whatever the attempts
    answer and whatever happens to the call: the promise is never rejected;
    when it is resolved, it is with the credentials of the first attempt that
    succeeded, after as many timers as there were failed attempts; every
    timer is set with the caller's [pollInterval], or 2500 when none is
    given; after [n] failed attempts the attempt of index [n] is running
    and the command has been run [n + 1] times, for every [n]; when that
    attempt fails too the call waits on a timer set with that same delay;
    the first success resolves the promise; and when no attempt succeeds the
    promise stays pending. *)
Theorem polling_mode options host :
  truthy (chain options Options.awaitConnection) = true ->
  includes supported_platforms (platform host) = true ->
  (forall inputs e, state (authenticate options host inputs) <> Failed e)
  /\ (forall inputs c,
         state (authenticate options host inputs) = Succeeded c ->
         exists n,
           snd (tryAuthenticate options host n) = Returned c
           /\ (forall k, k < n -> fails options host k)
           /\ log (authenticate options host inputs)
              = PlatformChecked
                :: failed_rounds options host n
                   ++ fst (tryAuthenticate options host n)
           /\ count is_timeout (log (authenticate options host inputs)) = n)
  /\ (forall inputs d,
         In (SetTimeout d) (log (authenticate options host inputs)) ->
         d = match chain options Options.pollInterval with
             | Some ms => ms
             | None => 2500%Z
             end)
  /\ (forall n,
         (forall k, k < n -> fails options host k) ->
         state (authenticate options host (repeat Progress (2 * n)))
         = Attempting n
         /\ log (authenticate options host (repeat Progress (2 * n)))
            = PlatformChecked
              :: failed_rounds options host n ++ [Exec (command host)]
         /\ count is_exec
              (log (authenticate options host (repeat Progress (2 * n))))
            = n + 1
         /\ count is_timeout
              (log (authenticate options host (repeat Progress (2 * n)))) = n)
  /\ (forall n,
         (forall k, k < S n -> fails options host k) ->
         state (authenticate options host (repeat Progress (2 * n + 1)))
         = Waiting n match chain options Options.pollInterval with
                     | Some ms => ms
                     | None => 2500%Z
                     end
         /\ log (authenticate options host (repeat Progress (2 * n + 1)))
            = (PlatformChecked :: failed_rounds options host n)
              ++ fst (tryAuthenticate options host n)
              ++ [SetTimeout match chain options Options.pollInterval with
                             | Some ms => ms
                             | None => 2500%Z
                             end])
  /\ (forall n c rest,
         (forall k, k < n -> fails options host k) ->
         snd (tryAuthenticate options host n) = Returned c ->
         state (authenticate options host (repeat Progress (2 * n + 1) ++ rest))
         = Succeeded c)
  /\ (forall inputs,
         (forall k, fails options host k) ->
         settled (state (authenticate options host inputs)) = false).
Proof.
  intros Ha Hp.
  assert (Hinv := fun inputs => CallFacts.polling_always options host inputs Ha Hp).
  assert (Hdelay : interval options
                   = match chain options Options.pollInterval with
                     | Some ms => ms
                     | None => 2500%Z
                     end)
    by (unfold interval, nullish; now destruct (chain options Options.pollInterval)).
  rewrite <- Hdelay.
  repeat apply conj.
  - intros inputs e H. specialize (Hinv inputs).
    destruct Hinv; cbn [state] in H; discriminate.
  - intros inputs c H. specialize (Hinv inputs).
    destruct Hinv as [n ab Hf|n ab Hf|n r ab Hf Hr]; cbn [state] in H;
      try discriminate.
    injection H as ->. exists n. cbn [log]. repeat split; auto.
    change (count ?p (PlatformChecked :: ?l)) with (count p l).
    rewrite CallFacts.count_app, CallFacts.failed_rounds_timeouts.
    destruct (AttemptFacts.tryAuthenticate_events options host n)
      as (rest & -> & [->| ->]); cbn; lia.
  - intros inputs d H. specialize (Hinv inputs).
    destruct Hinv as [n ab Hf|n ab Hf|n r ab Hf Hr]; cbn [log] in H;
      (destruct H as [H|H]; [discriminate|]).
    + apply in_app_iff in H as [H|H].
      * now apply CallFacts.failed_rounds_delay in H.
      * destruct H as [H|[]]. discriminate.
    + now apply CallFacts.failed_rounds_delay in H.
    + apply in_app_iff in H as [H|H].
      * now apply CallFacts.failed_rounds_delay in H.
      * now apply CallFacts.attempt_no_timeout in H.
  - intros n Hf.
    destruct (CallFacts.polling_reaches options host n Ha Hp Hf) as [Hs Hl].
    rewrite Hs, Hl. repeat split.
    + change (count ?p (PlatformChecked :: ?l)) with (count p l).
      now rewrite CallFacts.count_app, CallFacts.failed_rounds_execs.
    + change (count ?p (PlatformChecked :: ?l)) with (count p l).
      rewrite CallFacts.count_app, CallFacts.failed_rounds_timeouts.
      cbn. lia.
  - intros n Hf.
    destruct (CallFacts.polling_waits options host n Ha Hp Hf) as [Hs Hl].
    rewrite Hs, Hl. split; reflexivity.
  - intros n c rest Hf Hc.
    now apply CallFacts.polling_resolves.
  - intros inputs Hall. specialize (Hinv inputs).
    destruct Hinv as [n ab Hf|n ab Hf|n r ab Hf Hr]; cbn [state settled];
      try reflexivity.
    destruct (Hall n) as [e He]. congruence.
Qed.

Lemma polling_mode_witness :
  (forall inputs d,
      In (SetTimeout d)
         (log (authenticate (polling_every 100) (linux_from 2 sample_arguments)
                 inputs)) ->
      d = 100%Z)
  /\ state (authenticate (polling_every 100) (linux_from 2 sample_arguments)
              (repeat Progress (2 * 0 + 1)))
     = Waiting 0 100
  /\ state (authenticate (polling_every 100) (linux_from 2 sample_arguments)
              (repeat Progress (2 * 2 + 1) ++ []))
     = Succeeded {| port := Finite 56789; password := "abc-123";
                    pid := Finite 4321; certificate := None |}.
Proof.
  pose proof (polling_mode (polling_every 100) (linux_from 2 sample_arguments)
                eq_refl eq_refl) as (_ & _ & Hdelay & _ & Hwait & Hres & _).
  split; [exact Hdelay|split].
  - apply (Hwait 0). intros k Hk. exists ClientNotFoundError.
    destruct k as [|k]; [reflexivity|lia].
  - apply (Hres 2 _ []).
    + intros k Hk. exists ClientNotFoundError.
      destruct k as [|[|k]]; [reflexivity|reflexivity|lia].
    + vm_compute. reflexivity.
Defined.

(* ------------------------------------------------------------------ *)
(** ** Runs on concrete hosts *)

(** An unsupported platform, in polling mode: rejected, nothing run. *)
Example freebsd_run :
  authenticate (options_with (Some true) None None) freebsd
    [Progress; Progress; Progress]
  = {| state := Failed InvalidPlatformError;
       log := [PlatformChecked];
       abandoned := false |}.
Proof. reflexivity. Qed.

(** A listing without the process id. *)
Example listing_without_pid :
  tryAuthenticate None
    (linux (Some "--app-port=56789 --remoting-auth-token=abc-123") None) 0
  = ([Exec ps_command], Thrown ClientNotFoundError).
Proof. reflexivity. Qed.

(** Immediate mode, no client: one command, then the rejection. *)
Example immediate_run :
  authenticate None (linux None None) [Progress; Progress]
  = {| state := Failed ClientNotFoundError;
       log := [PlatformChecked; Exec ps_command];
       abandoned := false |}.
Proof. reflexivity. Qed.

(** Polling mode, the client appears at the third attempt. *)
Example polling_run :
  authenticate (options_with (Some true) None None)
    (linux_from 2 sample_arguments) (repeat Progress 5)
  = {| state := Succeeded {| port := Finite 56789; password := "abc-123";
                             pid := Finite 4321; certificate := None |};
       log := [PlatformChecked;
               Exec ps_command; SetTimeout 2500;
               Exec ps_command; SetTimeout 2500;
               Exec ps_command];
       abandoned := false |}.
Proof. vm_compute. reflexivity. Qed.

(** On Windows the listing comes from WMIC. *)
Example windows_run :
  tryAuthenticate None
    {| platform := "win32";
       exec := fun _ c => if String.eqb c wmic_command
                          then Some sample_arguments else None;
       readFile := fun _ _ => None |} 0
  = ([Exec wmic_command],
     Returned {| port := Finite 56789; password := "abc-123";
                 pid := Finite 4321; certificate := None |}).
Proof. vm_compute. reflexivity. Qed.

(* ------------------------------------------------------------------ *)
(** ** The search, characterised *)

Module SearchFacts.

Import Regex.
Local Open Scope string_scope.

Lemma append_assoc (a b c : string) : (a ++ b) ++ c = a ++ b ++ c.
Proof. induction a as [|x a IH]; simpl; [reflexivity|now rewrite IH]. Qed.

Lemma length_append (a b : string) :
  String.length (a ++ b) = String.length a + String.length b.
Proof. induction a as [|x a IH]; simpl; [reflexivity|now rewrite IH]. Qed.

Lemma append_inv_head (a b c : string) : a ++ b = a ++ c -> b = c.
Proof.
  induction a as [|x a IH]; simpl; [auto|].
  intros [= H]. now apply IH.
Qed.

Lemma strip_prefix_iff lit s rest :
  strip_prefix lit s = Some rest <-> s = lit ++ rest.
Proof.
  revert s; induction lit as [|a lit IH]; intros s; simpl.
  - split; [now intros [= ->]|now intros ->].
  - destruct s as [|b s]; [split; discriminate|].
    destruct (Ascii.eqb_spec a b) as [->|Hab].
    + rewrite IH. split; [now intros ->|now intros [= ->]].
    + split; [discriminate|]. intros [= H _]. now elim Hab.
Qed.

Lemma strip_prefix_append lit rest : strip_prefix lit (lit ++ rest) = Some rest.
Proof. now apply strip_prefix_iff. Qed.

(** The greedy run splits the text: a run in the class, then a text whose
    first character is outside the class. *)
Lemma take_while_split p s :
  exists post, s = take_while p s ++ post /\ head_in p post = false.
Proof.
  induction s as [|c s (post & Hs & Hp)]; simpl.
  - now exists "".
  - destruct (p c) eqn:Hc.
    + exists post. simpl. split; [now rewrite <- Hs|exact Hp].
    + exists (String c s). simpl. now split.
Qed.

Lemma take_while_run p cap post :
  all_chars p cap -> head_in p post = false ->
  take_while p (cap ++ post) = cap.
Proof.
  induction cap as [|c cap IH]; intros Hall Hpost; simpl.
  - destruct post as [|x post]; [reflexivity|].
    simpl in *. now rewrite Hpost.
  - rewrite (Hall c (or_introl eq_refl)). f_equal.
    apply IH; [|exact Hpost]. intros x Hx. apply Hall. now right.
Qed.

Lemma head_in_run p cap post :
  cap <> "" -> all_chars p cap -> head_in p (cap ++ post) = true.
Proof.
  destruct cap as [|c cap]; [now intros H|].
  intros _ Hall. simpl. apply Hall. now left.
Qed.

Lemma take_while_empty_iff p s :
  take_while p s = "" <-> head_in p s = false.
Proof.
  destruct s as [|c s]; simpl; [now split|].
  destruct (p c); split; congruence.
Qed.

(** A match at the head of the text. *)
Lemma match_here_iff r s cap :
  match_here r s = Some cap <->
  exists post,
    s = marker r ++ cap ++ post
    /\ cap <> "" /\ all_chars (class r) cap /\ head_in (class r) post = false.
Proof.
  unfold match_here. split.
  - destruct (strip_prefix (marker r) s) as [rest|] eqn:E; [|discriminate].
    apply strip_prefix_iff in E. subst s.
    destruct (take_while_split (class r) rest) as (post & Hrest & Hpost).
    pose proof (RegexFacts.take_while_all (class r) rest) as Hall.
    destruct (take_while (class r) rest) as [|c t] eqn:Et; [discriminate|].
    intros [= <-]. exists post. rewrite <- Hrest.
    repeat split; [discriminate|exact Hall|exact Hpost].
  - intros (post & -> & Hne & Hall & Hpost).
    rewrite strip_prefix_append, (take_while_run _ _ _ Hall Hpost).
    destruct cap; [now elim Hne|reflexivity].
Qed.

Lemma match_here_none_iff r s :
  match_here r s = None <->
  forall rest, s = marker r ++ rest -> head_in (class r) rest = false.
Proof.
  unfold match_here. split.
  - destruct (strip_prefix (marker r) s) as [rest0|] eqn:E.
    + apply strip_prefix_iff in E. subst s.
      destruct (take_while (class r) rest0) eqn:Et; [|discriminate].
      intros _ rest H. apply append_inv_head in H. subst rest.
      now apply take_while_empty_iff.
    + intros _ rest H. apply strip_prefix_iff in H. congruence.
  - intros H. destruct (strip_prefix (marker r) s) as [rest|] eqn:E;
      [|reflexivity].
    apply strip_prefix_iff in E.
    apply H, take_while_empty_iff in E. now rewrite E.
Qed.

Lemma str_match_unfold r s :
  str_match r s =
  match match_here r s with
  | Some cap => Some cap
  | None =>
      match s with
      | EmptyString => None
      | String _ s' => str_match r s'
      end
  end.
Proof. destruct s; reflexivity. Qed.

End SearchFacts.

(* ------------------------------------------------------------------ *)
(** ** Further properties of the search and of [Number] *)

Local Open Scope string_scope.

(** X1: [match] answers [null] exactly when the marker is nowhere followed by
    a character of the class. *)
Theorem match_null_iff r s :
  str_match r s = None <->
  forall pre rest, s = pre ++ marker r ++ rest -> head_in (class r) rest = false.
Proof.
  induction s as [|c s IH]; cbn [str_match].
  - destruct (match_here r "") as [s0|] eqn:E.
    + split; [discriminate|]. intros H.
      apply SearchFacts.match_here_iff in E as (post & Hs & Hne & Hall & Hpost).
      specialize (H "" (s0 ++ post) Hs).
      rewrite (SearchFacts.head_in_run _ _ post Hne Hall) in H. discriminate.
    + split; [|reflexivity]. intros _ pre rest H.
      destruct pre; [|discriminate].
      now apply (proj1 (SearchFacts.match_here_none_iff r "") E).
  - destruct (match_here r (String c s)) as [s0|] eqn:E.
    + split; [discriminate|]. intros H.
      apply SearchFacts.match_here_iff in E as (post & Hs & Hne & Hall & Hpost).
      specialize (H "" (s0 ++ post) Hs).
      rewrite (SearchFacts.head_in_run _ _ post Hne Hall) in H. discriminate.
    + rewrite IH. split.
      * intros H pre rest Hs. destruct pre as [|x pre].
        -- now apply (proj1 (SearchFacts.match_here_none_iff r _) E).
        -- injection Hs as _ Hs. now apply (H pre rest).
      * intros H pre rest Hs. apply (H (String c pre) rest). simpl. now rewrite Hs.
Qed.

(** X2: [match] answers the capture [cap] exactly when the text reads
    [pre ++ marker ++ cap ++ post] with [cap] a non-empty run of the class
    that [post] does not continue, and the marker is followed by no character
    of the class at any earlier position: the match is the leftmost one and
    the capture is the longest one. *)
Theorem first_match_iff r s cap :
  str_match r s = Some cap <->
  exists pre post,
    s = pre ++ marker r ++ cap ++ post
    /\ cap <> ""
    /\ all_chars (class r) cap
    /\ head_in (class r) post = false
    /\ (forall pre' rest',
           s = pre' ++ marker r ++ rest' ->
           String.length pre' < String.length pre ->
           head_in (class r) rest' = false).
Proof.
  split.
  - induction s as [|c s IH]; rewrite SearchFacts.str_match_unfold.
    + destruct (match_here r "") as [cap0|] eqn:E; [|discriminate].
      intros [= ->].
      apply SearchFacts.match_here_iff in E as (post & Hs & Hne & Hall & Hpost).
      exists "", post. repeat split; auto. simpl. intros ? ? _ H. inversion H.
    + destruct (match_here r (String c s)) as [cap0|] eqn:E.
      * intros [= ->].
        apply SearchFacts.match_here_iff in E as (post & Hs & Hne & Hall & Hpost).
        exists "", post. repeat split; auto. simpl. intros ? ? _ H. inversion H.
      * intros H. destruct (IH H) as (pre & post & Hs & Hne & Hall & Hpost & Hleft).
        exists (String c pre), post. repeat split; auto.
        -- simpl. now rewrite <- Hs.
        -- intros pre' rest' Hs' Hlen. destruct pre' as [|x pre'].
           ++ now apply (proj1 (SearchFacts.match_here_none_iff r _) E).
           ++ injection Hs' as _ Hs'. apply (Hleft pre' rest' Hs').
              simpl in Hlen. lia.
  - intros (pre & post & Hs & Hne & Hall & Hpost & Hleft). revert s Hs Hleft.
    induction pre as [|c pre IH]; intros s Hs Hleft;
      rewrite SearchFacts.str_match_unfold.
    + assert (E : match_here r s = Some cap)
        by (apply SearchFacts.match_here_iff; eauto).
      now rewrite E.
    + assert (E : match_here r s = None).
      { apply SearchFacts.match_here_none_iff. intros rest Hr.
        apply (Hleft "" rest Hr). simpl. lia. }
      rewrite E. subst s. simpl. apply IH; [reflexivity|].
      intros pre' rest' Hs' Hlen.
      apply (Hleft (String c pre') rest'); simpl; [now rewrite Hs'|lia].
Qed.

Module DecimalFacts.

Import Regex JsNumber.
Local Open Scope Z_scope.

Lemma decimal_from_app s t acc :
  decimal_from acc (s ++ t) = decimal_from (decimal_from acc s) t.
Proof.
  revert acc; induction s as [|c s IH]; intros acc; cbn [append decimal_from];
    [reflexivity|apply IH].
Qed.

Lemma decimal_from_bound s :
  all_chars is_digit s -> forall acc, 0 <= acc ->
  acc * 10 ^ Z.of_nat (String.length s) <= decimal_from acc s
  < (acc + 1) * 10 ^ Z.of_nat (String.length s).
Proof.
  induction s as [|c s IH]; intros Hall acc Hacc;
    cbn [String.length decimal_from].
  - cbn. lia.
  - pose proof (NumberFacts.digit_value_nonneg c (Hall c (or_introl eq_refl)))
      as Hd.
    assert (Hs : all_chars is_digit s) by (intros x Hx; apply Hall; now right).
    specialize (IH Hs (10 * acc + digit_value c) ltac:(lia)).
    rewrite Nat2Z.inj_succ, Z.pow_succ_r by lia.
    assert (Hpow : 0 < 10 ^ Z.of_nat (String.length s))
      by (apply Z.pow_pos_nonneg; lia).
    nia.
Qed.

End DecimalFacts.

(** X3: a capture of at most fifteen digits is read exactly: [Number] gives
    its base-10 value, which is below ten to the number of digits, each
    further digit multiplying the value by ten and adding its own.  Leading
    zeros count for nothing. *)
Theorem short_run_exact s :
  all_chars is_digit s ->
  String.length s <= 15 ->
  Number s = Finite (decimal s)
  /\ (0 <= decimal s < 10 ^ Z.of_nat (String.length s))%Z
  /\ (forall c, decimal (s ++ String c "")
                = (10 * decimal s + digit_value c)%Z)
  /\ decimal (String "0" s) = decimal s.
Proof.
  intros Hall Hlen.
  destruct (DecimalFacts.decimal_from_bound s Hall 0%Z ltac:(lia)) as [Hlo Hhi].
  fold (decimal s) in Hlo, Hhi.
  assert (Hpow : (10 ^ Z.of_nat (String.length s) <= 10 ^ 15)%Z)
    by (apply Z.pow_le_mono_r; lia).
  repeat split; try lia.
  - apply NumberFacts.Number_exact.
    assert ((10 ^ 15 < 2 ^ 53)%Z) by reflexivity. lia.
  - intros c. unfold decimal. now rewrite DecimalFacts.decimal_from_app.
Qed.

Lemma short_run_exact_witness :
  Number "0056789" = Finite (decimal "0056789")
  /\ (0 <= decimal "0056789" < 10 ^ Z.of_nat (String.length "0056789"))%Z
  /\ (forall c, decimal ("0056789" ++ String c "")
                = (10 * decimal "0056789" + digit_value c)%Z)
  /\ decimal (String "0" "0056789") = decimal "0056789".
Proof.
  apply (short_run_exact "0056789").
  - intros c Hc. simpl in Hc.
    repeat (destruct Hc as [<-|Hc]; [reflexivity|]). contradiction.
  - simpl. lia.
Defined.

(* ------------------------------------------------------------------ *)
(** ** Further properties of an attempt and of the call *)

Local Open Scope list_scope.

Module LogFacts.

Import Regex JsNumber Effects Auth.
Local Open Scope list_scope.

Section Log.

Variable options : option Options.AuthenticationOptions.
Variable host : Host.

(** Where the events of a log come from. *)
Lemma log_events inputs ev :
  In ev (log (authenticate options host inputs)) ->
  ev = PlatformChecked
  \/ ev = SetTimeout (interval options)
  \/ exists n, In ev (fst (tryAuthenticate options host n)).
Proof.
  revert ev.
  assert (Hexec : forall ev, ev = Exec (command host) ->
            exists n, In ev (fst (tryAuthenticate options host n))).
  { intros ev ->. exists 0.
    destruct (CallFacts.attempt_events_split options host 0) as [-> _].
    now left. }
  assert (Hafter : forall n ev, In ev (after_exec options host n) ->
            exists k, In ev (fst (tryAuthenticate options host k))).
  { intros n ev H. exists n.
    destruct (CallFacts.attempt_events_split options host n) as [-> _].
    now right. }
  apply (CallFacts.authenticate_invariant options host
           (fun c => forall ev, In ev (log c) ->
              ev = PlatformChecked
              \/ ev = SetTimeout (interval options)
              \/ exists n, In ev (fst (tryAuthenticate options host n)))).
  - unfold start. destruct (negb _); cbn [log].
    + intros ev [<-|[]]; now left.
    + intros ev [<-|[<-|[]]]; [now left|]. right. right. now apply Hexec.
  - intros [st lg ab] i IH. cbn [log] in IH.
    destruct i; cbn [step state log]; [|exact IH].
    destruct st; cbn [log]; try exact IH.
    + destruct (truthy _).
      * destruct (CallFacts.self_cases options host n) as [(r & _ & ->)|(_ & ->)];
          cbn [log]; intros ev; rewrite !in_app_iff.
        -- intros [H|H]; eauto.
        -- intros [H|[H|H]]; eauto. destruct H as [<-|[]]. auto.
      * rewrite CallFacts.once_cases. cbn [log]. intros ev. rewrite in_app_iff.
        intros [H|H]; eauto.
    + intros ev. rewrite in_app_iff. intros [H|[<-|[]]]; eauto.
Qed.

(** The first input that makes the call progress settles it when the
    attempt of index 0 returns, in either mode. *)
Lemma first_success_settles inputs c :
  includes supported_platforms (platform host) = true ->
  snd (tryAuthenticate options host 0) = Returned c ->
  existsb is_progress inputs = true ->
  state (authenticate options host inputs) = Succeeded c
  /\ log (authenticate options host inputs)
     = PlatformChecked :: fst (tryAuthenticate options host 0).
Proof.
  intros Hp Hc.
  destruct (CallFacts.run_without_abandon options host inputs
              (start host) (start host) eq_refl eq_refl) as [Hs Hl].
  unfold authenticate. rewrite Hs, Hl. clear Hs Hl.
  induction inputs as [|i inputs IH]; cbn [existsb filter]; [discriminate|].
  destruct i; cbn [is_progress orb]; [|exact IH].
  intros _. cbn [fold_left].
  assert (Hstep : step options host (start host) Progress
                  = {| state := Succeeded c;
                       log := PlatformChecked :: fst (tryAuthenticate options host 0);
                       abandoned := false |}).
  { rewrite (CallFacts.supported_start host Hp).
    cbn [step state log abandoned].
    destruct (CallFacts.attempt_events_split options host 0) as [Hev _].
    rewrite Hev.
    destruct (truthy _).
    - destruct (CallFacts.self_cases options host 0)
        as [(r & Hr & ->)|([e He] & _)]; [|congruence].
      now replace r with c by congruence.
    - rewrite CallFacts.once_cases, Hc. reflexivity. }
  rewrite Hstep.
  match goal with |- context [fold_left _ ?l ?x] =>
    destruct (CallFacts.settled_stays options host x l eq_refl) as [-> ->]
  end.
  now split.
Qed.

(** How the commands run and the timers set are counted, state by state:
    one command more than timers, except while a timer is pending and on
    an unsupported platform. *)
Lemma exec_timer_balance inputs :
  let c := authenticate options host inputs in
  count is_exec (log c)
  = count is_timeout (log c)
    + match state c with
      | Attempting _ | Succeeded _ | Failed ClientNotFoundError => 1
      | _ => 0
      end.
Proof.
  apply (CallFacts.authenticate_invariant options host
           (fun c => count is_exec (log c)
                     = count is_timeout (log c)
                       + match state c with
                         | Attempting _ | Succeeded _
                         | Failed ClientNotFoundError => 1
                         | _ => 0
                         end)).
  - unfold start. destruct (negb _); reflexivity.
  - intros [st lg ab] i IH. cbn [log state] in IH.
    destruct i; cbn [step state log]; [|exact IH].
    destruct st; cbn [state log]; try exact IH.
    + destruct (CallFacts.after_exec_counts options host n) as (_ & He & Ht).
      destruct (truthy _).
      * destruct (CallFacts.self_cases options host n) as [(r & _ & ->)|(_ & ->)];
          cbn [state log]; rewrite !CallFacts.count_app, ?He, ?Ht, IH; cbn; lia.
      * rewrite CallFacts.once_cases. cbn [state log].
        rewrite !CallFacts.count_app, He, Ht, IH.
        destruct (snd (tryAuthenticate options host n)) as [r|e] eqn:E; [lia|].
        rewrite (AttemptFacts.tryAuthenticate_thrown options host n e E). lia.
    + rewrite !CallFacts.count_app, IH. cbn. lia.
Qed.

(** Once the caller has abandoned, the call remembers it. *)
Lemma abandoned_stays inputs c :
  abandoned c = true ->
  abandoned (fold_left (step options host) inputs c) = true.
Proof.
  revert c; induction inputs as [|i inputs IH]; intros c H; [exact H|].
  cbn [fold_left]. apply IH.
  destruct i; cbn [step]; [|reflexivity].
  destruct (state c); cbn [abandoned]; try exact H.
  now destruct (if truthy _ then _ else _).
Qed.

End Log.

End LogFacts.

Module ReadFacts.

Import Regex JsNumber Effects Auth.
Local Open Scope list_scope.

(** The bundled file is read only when it is needed. *)
Lemma read_event_needs options host n path :
  In (ReadFile path) (fst (tryAuthenticate options host n)) ->
  path = certificate_path
  /\ (exists stdout,
         exec host n (command host) = Some stdout
         /\ str_match portRegex stdout <> None
         /\ str_match passwordRegex stdout <> None
         /\ str_match pidRegex stdout <> None)
  /\ truthy_string (chain options Options.certificate) = false
  /\ chain options Options.unsafe = Some false.
Proof.
  rewrite AttemptFacts.tryAuthenticate_cases. unfold unsafe_flag.
  destruct (exec host n (command host)) as [stdout|] eqn:Ex;
    [|simpl; intros [H|[]]; discriminate].
  destruct (str_match portRegex stdout) as [p|] eqn:Ep;
    [|simpl; intros [H|[]]; discriminate].
  destruct (str_match passwordRegex stdout) as [pw|] eqn:Ew;
    [|simpl; intros [H|[]]; discriminate].
  destruct (str_match pidRegex stdout) as [pi|] eqn:Ei;
    [|simpl; intros [H|[]]; discriminate].
  destruct (truthy_string (chain options Options.certificate));
    [simpl; intros [H|[]]; discriminate|].
  destruct (chain options Options.unsafe) as [[|]|];
    cbn [truthy is_undefined orb]; try (simpl; intros [H|[]]; discriminate).
  assert (Hin : In (ReadFile path)
                  [Exec (command host); ReadFile certificate_path] ->
                path = certificate_path)
    by (simpl; intros [H|[H|[]]]; congruence).
  destruct (readFile host n certificate_path); cbn [fst]; intros H;
    (repeat split; [now apply Hin|]);
    exists stdout; repeat split; congruence.
Qed.

(** An attempt on a host that always answers the same is the attempt of
    index 0. *)
Lemma stationary_attempt options host n :
  (forall k cmd, exec host k cmd = exec host 0 cmd) ->
  (forall k path, readFile host k path = readFile host 0 path) ->
  tryAuthenticate options host n = tryAuthenticate options host 0.
Proof.
  intros He Hr.
  rewrite (AttemptFacts.tryAuthenticate_cases options host n),
    (AttemptFacts.tryAuthenticate_cases options host 0).
  now rewrite (He n), (Hr n).
Qed.

End ReadFacts.

(** X4: an attempt returns credentials exactly when the command answered,
    the three expressions match in its output, and the certificate step
    cannot fail: a non-empty override is given, or [unsafe] is not
    explicitly false, or the bundled file can be read. *)
Theorem attempt_succeeds_iff options host n :
  (exists c, snd (tryAuthenticate options host n) = Returned c) <->
  exists stdout,
    exec host n (command host) = Some stdout
    /\ str_match portRegex stdout <> None
    /\ str_match passwordRegex stdout <> None
    /\ str_match pidRegex stdout <> None
    /\ (truthy_string (chain options Options.certificate) = true
        \/ unsafe_flag options = true
        \/ readFile host n certificate_path <> None).
Proof.
  rewrite AttemptFacts.tryAuthenticate_cases.
  destruct (exec host n (command host)) as [stdout|] eqn:Ex.
  2:{ split; [intros [c H]; discriminate|intros (s & H & _); discriminate]. }
  assert (Hsame : forall s (P : Prop),
             Some stdout = Some s -> (s = stdout -> P) -> P)
    by (intros s P [= <-] H; now apply H).
  destruct (str_match portRegex stdout) as [p|] eqn:Ep.
  2:{ split; [intros [c H]; discriminate|].
      intros (s & Hs & H & _). apply (Hsame s _ Hs). intros ->. congruence. }
  destruct (str_match passwordRegex stdout) as [pw|] eqn:Ew.
  2:{ split; [intros [c H]; discriminate|].
      intros (s & Hs & _ & H & _). apply (Hsame s _ Hs). intros ->. congruence. }
  destruct (str_match pidRegex stdout) as [pi|] eqn:Ei.
  2:{ split; [intros [c H]; discriminate|].
      intros (s & Hs & _ & _ & H & _). apply (Hsame s _ Hs). intros ->.
      congruence. }
  assert (Hmatch : str_match portRegex stdout <> None
                   /\ str_match passwordRegex stdout <> None
                   /\ str_match pidRegex stdout <> None)
    by (repeat split; congruence).
  destruct Hmatch as (Hp & Hw & Hi).
  destruct (truthy_string (chain options Options.certificate)).
  { split; [|intros _; eexists; reflexivity].
    intros _. exists stdout. repeat split; auto. }
  destruct (unsafe_flag options).
  { split; [|intros _; eexists; reflexivity].
    intros _. exists stdout. repeat split; auto. }
  destruct (readFile host n certificate_path) as [text|].
  - split; [|intros _; eexists; reflexivity]. intros _. exists stdout.
    repeat split; auto. right. right. discriminate.
  - split; [intros [c H]; discriminate|].
    intros (s & _ & _ & _ & _ & [H|[H|H]]); try discriminate. now elim H.
Qed.

(** X5: an attempt reads a file exactly when the command answered, the three
    expressions match, there is no override (or an empty one) and [unsafe]
    is explicitly false; the file is then the bundled certificate, and it
    is read after the command has run. *)
Theorem bundled_file_read_iff options host n path :
  In (ReadFile path) (fst (tryAuthenticate options host n)) <->
  path = certificate_path
  /\ (exists stdout,
         exec host n (command host) = Some stdout
         /\ str_match portRegex stdout <> None
         /\ str_match passwordRegex stdout <> None
         /\ str_match pidRegex stdout <> None)
  /\ truthy_string (chain options Options.certificate) = false
  /\ chain options Options.unsafe = Some false.
Proof.
  split; [apply ReadFacts.read_event_needs|].
  intros (-> & (stdout & He & Hp & Hw & Hi) & Hc & Hu).
  rewrite AttemptFacts.tryAuthenticate_cases, He, Hc. unfold unsafe_flag.
  rewrite Hu. cbn [truthy is_undefined orb].
  destruct (str_match portRegex stdout); [|now elim Hp].
  destruct (str_match passwordRegex stdout); [|now elim Hw].
  destruct (str_match pidRegex stdout); [|now elim Hi].
  destruct (readFile host n certificate_path); simpl; auto.
Qed.

(** X6: whatever the options, the host and the course of the call, the only
    command the call ever runs is the listing command of the platform, one
    of the two fixed strings, and the only file it ever reads is the bundled
    certificate, and only without an override and with [unsafe] explicitly
    false.  Nothing of the options reaches the shell. *)
Theorem call_runs_only_listing options host inputs :
  (forall cmd,
      In (Exec cmd) (log (authenticate options host inputs)) ->
      cmd = command host
      /\ (cmd = wmic_command \/ cmd = ps_command)
      /\ (cmd = wmic_command <-> platform host = "win32"%string))
  /\ (forall path,
         In (ReadFile path) (log (authenticate options host inputs)) ->
         path = certificate_path
         /\ truthy_string (chain options Options.certificate) = false
         /\ chain options Options.unsafe = Some false).
Proof.
  split.
  - intros cmd H.
    apply LogFacts.log_events in H as [H|[H|[n H]]]; try discriminate.
    assert (Hcmd : cmd = command host).
    { destruct (AttemptFacts.tryAuthenticate_events options host n)
        as (rest & Hev & Hrest). rewrite Hev in H.
      destruct H as [[= <-]|H]; [reflexivity|].
      destruct Hrest as [->| ->]; simpl in H; intuition discriminate. }
    subst cmd. unfold command.
    destruct (String.eqb_spec (platform host) "win32") as [E|E].
    + repeat split; auto.
    + repeat split; auto; [discriminate|congruence].
  - intros path H.
    apply LogFacts.log_events in H as [H|[H|[n H]]]; try discriminate.
    apply ReadFacts.read_event_needs in H. tauto.
Qed.

(** X7: the promise is rejected with one of two errors only.  It is
    [InvalidPlatformError] exactly on an unsupported platform; otherwise it
    is [ClientNotFoundError], the call is in immediate mode and it is the
    attempt of index 0 that failed.  The errors raised inside the attempt
    never reach the caller. *)
Theorem rejection_kinds options host inputs e :
  state (authenticate options host inputs) = Failed e ->
  (e = InvalidPlatformError
   /\ includes supported_platforms (platform host) = false)
  \/ (e = ClientNotFoundError
      /\ includes supported_platforms (platform host) = true
      /\ truthy (chain options Options.awaitConnection) = false
      /\ fails options host 0).
Proof.
  revert e.
  apply (CallFacts.authenticate_invariant options host
           (fun c =>
              match state c with
              | Attempting n =>
                  includes supported_platforms (platform host) = true
                  /\ (truthy (chain options Options.awaitConnection) = false ->
                      n = 0)
              | Waiting _ _ =>
                  includes supported_platforms (platform host) = true
                  /\ truthy (chain options Options.awaitConnection) = true
              | Succeeded _ => True
              | Failed _ => True
              end
              /\ forall e, state c = Failed e ->
                   (e = InvalidPlatformError
                    /\ includes supported_platforms (platform host) = false)
                   \/ (e = ClientNotFoundError
                       /\ includes supported_platforms (platform host) = true
                       /\ truthy (chain options Options.awaitConnection) = false
                       /\ fails options host 0))).
  - unfold start.
    destruct (includes supported_platforms (platform host)); cbn [negb state].
    + split; [now split|discriminate].
    + split; [exact I|]. intros e [= <-]. now left.
  - intros [st lg ab] i [Hst Hfail]. cbn [state] in Hst, Hfail.
    destruct i; cbn [step state]; [|now split].
    destruct st as [n|n d|r|e0]; cbn [state]; try (now split).
    + destruct Hst as [Hp Hn].
      destruct (truthy (chain options Options.awaitConnection)) eqn:Ha.
      * destruct (CallFacts.self_cases options host n)
          as [(r & _ & ->)|(_ & ->)]; cbn [state];
          (split; [auto|discriminate]).
      * rewrite CallFacts.once_cases. cbn [state].
        rewrite (Hn eq_refl) in *.
        destruct (snd (tryAuthenticate options host 0)) as [r|e0] eqn:E;
          (split; [exact I|]); [discriminate|].
        intros e [= <-]. right.
        assert (He0 := AttemptFacts.tryAuthenticate_thrown options host 0 e0 E).
        subst e0. repeat split; auto. now exists ClientNotFoundError.
    + destruct Hst as [Hp Ha]. split; [|discriminate].
      split; [exact Hp|]. congruence.
Qed.

Lemma rejection_kinds_witness :
  (ClientNotFoundError = InvalidPlatformError
   /\ includes supported_platforms (platform (linux None None)) = false)
  \/ (ClientNotFoundError = ClientNotFoundError
      /\ includes supported_platforms (platform (linux None None)) = true
      /\ truthy (chain None Options.awaitConnection) = false
      /\ fails None (linux None None) 0).
Proof.
  apply (rejection_kinds None (linux None None) [Progress] ClientNotFoundError).
  reflexivity.
Defined.

(** X8: when the attempt of index 0 returns credentials on a supported
    platform, the promise is resolved with them as soon as that attempt has
    ended, in immediate mode and in polling mode alike: one command, no
    timer, whatever [awaitConnection] and [pollInterval] are. *)
Theorem first_success_either_mode options host inputs c :
  includes supported_platforms (platform host) = true ->
  snd (tryAuthenticate options host 0) = Returned c ->
  existsb is_progress inputs = true ->
  state (authenticate options host inputs) = Succeeded c
  /\ log (authenticate options host inputs)
     = PlatformChecked :: fst (tryAuthenticate options host 0)
  /\ count is_exec (log (authenticate options host inputs)) = 1
  /\ count is_timeout (log (authenticate options host inputs)) = 0.
Proof.
  intros Hp Hc Hin.
  destruct (LogFacts.first_success_settles options host inputs c Hp Hc Hin)
    as [Hs Hl].
  rewrite Hs, Hl. repeat split.
  - exact (CallFacts.attempt_one_exec options host 0).
  - destruct (AttemptFacts.tryAuthenticate_events options host 0)
      as (rest & -> & [->| ->]); reflexivity.
Qed.

Lemma first_success_either_mode_witness :
  state (authenticate (options_with (Some true) None None)
           (linux (Some sample_arguments) None) [Abandon; Progress])
  = Succeeded {| port := Finite 56789; password := "abc-123";
                 pid := Finite 4321; certificate := None |}
  /\ log (authenticate (options_with (Some true) None None)
            (linux (Some sample_arguments) None) [Abandon; Progress])
     = PlatformChecked
       :: fst (tryAuthenticate (options_with (Some true) None None)
                 (linux (Some sample_arguments) None) 0)
  /\ count is_exec
       (log (authenticate (options_with (Some true) None None)
               (linux (Some sample_arguments) None) [Abandon; Progress])) = 1
  /\ count is_timeout
       (log (authenticate (options_with (Some true) None None)
               (linux (Some sample_arguments) None) [Abandon; Progress])) = 0.
Proof.
  apply (first_success_either_mode (options_with (Some true) None None)
           (linux (Some sample_arguments) None) [Abandon; Progress]).
  - reflexivity.
  - vm_compute. reflexivity.
  - reflexivity.
Defined.

(** X9: at every moment of every call the command has been run once more
    than a timer has been set, except while a timer is pending, when both
    numbers are equal, and on an unsupported platform, where no command is
    run.  So each attempt is started by the call itself or by one timer, and
    each timer is set by one failed attempt. *)
Theorem commands_and_timers options host inputs :
  let c := authenticate options host inputs in
  count is_timeout (log c) <= count is_exec (log c) <= count is_timeout (log c) + 1
  /\ (forall n, state c = Attempting n ->
                count is_exec (log c) = count is_timeout (log c) + 1)
  /\ (forall n d, state c = Waiting n d ->
                  count is_exec (log c) = count is_timeout (log c))
  /\ (forall r, state c = Succeeded r ->
                count is_exec (log c) = count is_timeout (log c) + 1)
  /\ (state c = Failed ClientNotFoundError ->
      count is_exec (log c) = count is_timeout (log c) + 1)
  /\ (state c = Failed InvalidPlatformError -> count is_exec (log c) = 0).
Proof.
  intros c. pose proof (LogFacts.exec_timer_balance options host inputs) as H.
  cbv zeta in H. fold c in H.
  assert (Hplatform : state c = Failed InvalidPlatformError ->
                      count is_exec (log c) = 0).
  { intros E.
    destruct (includes supported_platforms (platform host)) eqn:Hp.
    - exfalso. revert E. unfold c.
      apply (CallFacts.authenticate_invariant options host
               (fun c => state c <> Failed InvalidPlatformError)).
      + rewrite (CallFacts.supported_start host Hp). discriminate.
      + intros [st lg ab] i Hst. cbn [state] in Hst.
        destruct i; cbn [step state]; [|exact Hst].
        destruct st as [k|k d|r|e0]; cbn [state]; try discriminate;
          try exact Hst.
        destruct (truthy _).
        * destruct (CallFacts.self_cases options host k)
            as [(r & _ & ->)|(_ & ->)]; discriminate.
        * rewrite CallFacts.once_cases. cbn [state].
          destruct (snd (tryAuthenticate options host k)) as [r|e0] eqn:E0;
            [discriminate|].
          rewrite (AttemptFacts.tryAuthenticate_thrown options host k e0 E0).
          discriminate.
    - destruct (CallFacts.unsupported_rejected options host inputs Hp)
        as [_ Hl]. fold c in Hl. now rewrite Hl. }
  split; [|split; [|split; [|split; [|split]]]].
  - destruct (state c) as [n|n d|r|[]]; lia.
  - intros n E. rewrite E in H. exact H.
  - intros n d E. rewrite E in H. lia.
  - intros r E. rewrite E in H. exact H.
  - intros E. rewrite E in H. exact H.
  - exact Hplatform.
Qed.

(** X10: on a host whose answers do not change from one attempt to the next,
    polling cannot recover from a first failure: every later attempt fails
    the same way, the attempts go on without end and the promise is never
    settled.  After [n] failed attempts the attempt of index [n] is running
    and the command has been run [n + 1] times.  This is the fate of a
    polling call that needs the bundled certificate when the file is
    missing. *)
Theorem stationary_host_polls_forever options host :
  truthy (chain options Options.awaitConnection) = true ->
  includes supported_platforms (platform host) = true ->
  (forall k cmd, exec host k cmd = exec host 0 cmd) ->
  (forall k path, readFile host k path = readFile host 0 path) ->
  fails options host 0 ->
  (forall inputs, settled (state (authenticate options host inputs)) = false)
  /\ (forall n,
         state (authenticate options host (repeat Progress (2 * n)))
         = Attempting n
         /\ count is_exec
              (log (authenticate options host (repeat Progress (2 * n))))
            = n + 1
         /\ count is_timeout
              (log (authenticate options host (repeat Progress (2 * n)))) = n).
Proof.
  intros Ha Hp He Hr Hf.
  assert (Hall : forall k, fails options host k).
  { intros k. unfold fails.
    now rewrite (ReadFacts.stationary_attempt options host k He Hr). }
  split.
  - intros inputs.
    destruct (CallFacts.polling_always options host inputs Ha Hp)
      as [n ab _|n ab _|n r ab _ Hret]; cbn [state settled]; try reflexivity.
    destruct (Hall n) as [e Hn]. congruence.
  - intros n.
    destruct (CallFacts.polling_reaches options host n Ha Hp
                (fun k _ => Hall k)) as [Hs Hl].
    split; [exact Hs|]. rewrite Hl.
    change (count ?p (PlatformChecked :: ?l)) with (count p l).
    rewrite !CallFacts.count_app, CallFacts.failed_rounds_execs,
      CallFacts.failed_rounds_timeouts.
    split; cbn; lia.
Qed.

Lemma stationary_host_polls_forever_witness :
  (forall inputs,
      settled (state (authenticate (options_with (Some true) None (Some false))
                        (linux (Some sample_arguments) None) inputs)) = false)
  /\ (forall n,
         state (authenticate (options_with (Some true) None (Some false))
                  (linux (Some sample_arguments) None) (repeat Progress (2 * n)))
         = Attempting n
         /\ count is_exec
              (log (authenticate (options_with (Some true) None (Some false))
                      (linux (Some sample_arguments) None)
                      (repeat Progress (2 * n)))) = n + 1
         /\ count is_timeout
              (log (authenticate (options_with (Some true) None (Some false))
                      (linux (Some sample_arguments) None)
                      (repeat Progress (2 * n)))) = n).
Proof.
  apply (stationary_host_polls_forever
           (options_with (Some true) None (Some false))
           (linux (Some sample_arguments) None)).
  - reflexivity.
  - reflexivity.
  - reflexivity.
  - reflexivity.
  - exists ClientNotFoundError. vm_compute. reflexivity.
Defined.

Module ScheduleFacts.

Import Regex JsNumber Effects Auth.
Local Open Scope list_scope.

Lemma filter_progress_repeat inputs :
  filter is_progress inputs
  = repeat Progress (length (filter is_progress inputs)).
Proof.
  induction inputs as [|[|] inputs IH]; cbn [filter is_progress length repeat];
    [reflexivity| |exact IH].
  now rewrite <- IH.
Qed.

Section Schedule.

Variable options : option Options.AuthenticationOptions.
Variable host : Host.

(** Only the number of [Progress] inputs matters. *)
Lemma run_by_count inputs :
  state (authenticate options host inputs)
  = state (authenticate options host
             (repeat Progress (length (filter is_progress inputs))))
  /\ log (authenticate options host inputs)
     = log (authenticate options host
              (repeat Progress (length (filter is_progress inputs)))).
Proof.
  rewrite <- filter_progress_repeat.
  apply (CallFacts.run_without_abandon options host inputs
           (start host) (start host) eq_refl eq_refl).
Qed.

Lemma polling_pending_before n m :
  truthy (chain options Options.awaitConnection) = true ->
  includes supported_platforms (platform host) = true ->
  (forall j, j < n -> fails options host j) ->
  m < 2 * n + 1 ->
  settled (state (authenticate options host (repeat Progress m))) = false.
Proof.
  intros Ha Hp Hf Hm.
  destruct (Nat.Even_or_Odd m) as [[k ->]|[k ->]].
  - destruct (CallFacts.polling_reaches options host k Ha Hp) as [-> _];
      [intros j Hj; apply Hf; lia|reflexivity].
  - destruct (CallFacts.polling_waits options host k Ha Hp) as [-> _];
      [intros j Hj; apply Hf; lia|reflexivity].
Qed.

End Schedule.

End ScheduleFacts.

(** X11: in polling mode on a supported platform, when the attempt of index
    [n] is the first that succeeds, the promise is resolved exactly when the
    call has progressed [2 * n + 1] times ([n + 1] attempts ended, [n] timers
    fired), whenever the caller abandons in between: before that it is
    pending, from then on it holds the credentials of attempt [n], after
    [n + 1] commands and [n] timers. *)
Theorem polling_resolves_on_time options host inputs n c :
  truthy (chain options Options.awaitConnection) = true ->
  includes supported_platforms (platform host) = true ->
  (forall k, k < n -> fails options host k) ->
  snd (tryAuthenticate options host n) = Returned c ->
  (length (filter is_progress inputs) < 2 * n + 1 ->
   settled (state (authenticate options host inputs)) = false)
  /\ (2 * n + 1 <= length (filter is_progress inputs) ->
      state (authenticate options host inputs) = Succeeded c
      /\ count is_exec (log (authenticate options host inputs)) = n + 1
      /\ count is_timeout (log (authenticate options host inputs)) = n).
Proof.
  intros Ha Hp Hf Hc.
  destruct (ScheduleFacts.run_by_count options host inputs) as [Hs Hl].
  rewrite Hs, Hl. set (m := length (filter is_progress inputs)). split.
  - intros Hm. now apply (ScheduleFacts.polling_pending_before options host n m).
  - intros Hm.
    replace m with ((2 * n + 1) + (m - (2 * n + 1))) by lia.
    rewrite repeat_app.
    pose proof (CallFacts.polling_resolves options host n c
                  (repeat Progress (m - (2 * n + 1))) Ha Hp Hf Hc) as Hres.
    split; [exact Hres|].
    destruct (CallFacts.polling_always options host
                (repeat Progress (2 * n + 1) ++ repeat Progress (m - (2 * n + 1)))
                Ha Hp) as [k ab _|k ab _|k r ab Hk Hr];
      cbn [state] in Hres; try discriminate.
    assert (k = n).
    { destruct (Nat.lt_trichotomy k n) as [Hlt|[Heq|Hgt]]; [|exact Heq|].
      - destruct (Hf k Hlt) as [e He]. congruence.
      - destruct (Hk n Hgt) as [e He]. congruence. }
    subst k. cbn [log].
    change (count ?p (PlatformChecked :: ?l)) with (count p l).
    rewrite !CallFacts.count_app, CallFacts.failed_rounds_execs,
      CallFacts.failed_rounds_timeouts, CallFacts.attempt_one_exec.
    split; [reflexivity|].
    destruct (AttemptFacts.tryAuthenticate_events options host n)
      as (rest & -> & [->| ->]); cbn; lia.
Qed.

Lemma polling_resolves_on_time_witness :
  (length (filter is_progress [Progress; Abandon; Progress; Progress; Abandon])
   < 2 * 1 + 1 ->
   settled (state (authenticate (options_with (Some true) None None)
                     (linux_from 1 sample_arguments)
                     [Progress; Abandon; Progress; Progress; Abandon])) = false)
  /\ (2 * 1 + 1
      <= length (filter is_progress
                   [Progress; Abandon; Progress; Progress; Abandon]) ->
      state (authenticate (options_with (Some true) None None)
               (linux_from 1 sample_arguments)
               [Progress; Abandon; Progress; Progress; Abandon])
      = Succeeded {| port := Finite 56789; password := "abc-123";
                     pid := Finite 4321; certificate := None |}
      /\ count is_exec
           (log (authenticate (options_with (Some true) None None)
                   (linux_from 1 sample_arguments)
                   [Progress; Abandon; Progress; Progress; Abandon])) = 1 + 1
      /\ count is_timeout
           (log (authenticate (options_with (Some true) None None)
                   (linux_from 1 sample_arguments)
                   [Progress; Abandon; Progress; Progress; Abandon])) = 1).
Proof.
  apply (polling_resolves_on_time (options_with (Some true) None None)
           (linux_from 1 sample_arguments)
           [Progress; Abandon; Progress; Progress; Abandon] 1).
  - reflexivity.
  - reflexivity.
  - intros k Hk. exists ClientNotFoundError.
    destruct k as [|k]; [reflexivity|lia].
  - vm_compute. reflexivity.
Defined.

(** Arguments in quotes and in another order. *)
Example quoted_listing :
  tryAuthenticate None
    (linux (Some "LeagueClientUx.exe '--app-pid=4321' '--remoting-auth-token=abc-123' '--app-port=56789'")
       None) 0
  = ([Exec ps_command],
     Returned {| port := Finite 56789; password := "abc-123";
                 pid := Finite 4321; certificate := None |}).
Proof. vm_compute. reflexivity. Qed.

(* ------------------------------------------------------------------ *)
(** ** The bundled certificate cannot be read; the caller abandons *)

Module UsableFacts.

Import Regex.
Local Open Scope string_scope.

Lemma prefix_append lit rest : String.prefix lit (lit ++ rest) = true.
Proof.
  induction lit as [|a lit IH]; simpl; [now destruct rest|].
  destruct (ascii_dec a a) as [_|H]; [exact IH|now elim H].
Qed.

Lemma drop_append lit rest : drop (String.length lit) (lit ++ rest) = rest.
Proof. induction lit as [|a lit IH]; simpl; [now destruct rest|exact IH]. Qed.

Lemma prefix_split lit s :
  String.prefix lit s = true -> s = lit ++ drop (String.length lit) s.
Proof.
  intros H. apply RegexFacts.strip_prefix_drop in H.
  now apply SearchFacts.strip_prefix_iff in H.
Qed.

Lemma usable_marker_false_iff r s :
  usable_marker r s = false <->
  forall rest, s = marker r ++ rest -> head_in (class r) rest = false.
Proof.
  unfold usable_marker. split.
  - intros H rest ->. rewrite prefix_append, drop_append in H. exact H.
  - intros H. destruct (String.prefix (marker r) s) eqn:Hp; [|reflexivity].
    cbn [andb]. apply H. now apply prefix_split.
Qed.

(** [no_usable_marker_before] says that, before the end of [pre], the marker
    is nowhere followed by a character of the class. *)
Lemma no_usable_marker_before_iff r pre rest :
  no_usable_marker_before r pre rest = true <->
  forall pre' rest',
    pre ++ rest = pre' ++ marker r ++ rest' ->
    String.length pre' < String.length pre ->
    head_in (class r) rest' = false.
Proof.
  induction pre as [|c pre IH]; cbn [no_usable_marker_before].
  - split; [|reflexivity]. intros _ pre' rest' _ H. inversion H.
  - rewrite andb_true_iff, negb_true_iff, IH, usable_marker_false_iff. split.
    + intros [Hhere Hlater] pre' rest' Hs Hlen. destruct pre' as [|x pre'].
      * now apply Hhere.
      * injection Hs as _ Hs. apply (Hlater pre' rest' Hs).
        simpl in Hlen. lia.
    + intros H. split.
      * intros rest' Hs. apply (H "" rest' Hs). simpl. lia.
      * intros pre' rest' Hs Hlen. apply (H (String c pre') rest').
        -- simpl. now rewrite Hs.
        -- simpl. lia.
Qed.

End UsableFacts.

Local Open Scope list_scope.

(** C1, the code at the failing input: the client runs, [unsafe] is
    explicitly false, there is no override and the bundled file cannot be
    read.  The attempt throws [ClientNotFoundError] although the client was
    found; in polling mode the call sets the timer and runs the attempt
    again, and the promise is never settled. *)
Lemma certificate_failure_run :
  tryAuthenticate (options_with (Some true) None (Some false))
    (linux (Some sample_arguments) None) 0
  = ([Exec ps_command; ReadFile certificate_path], Thrown ClientNotFoundError)
  /\ authenticate (options_with (Some true) None (Some false))
       (linux (Some sample_arguments) None) [Progress; Progress; Progress]
     = {| state := Waiting 1 2500;
          log := [PlatformChecked;
                  Exec ps_command; ReadFile certificate_path; SetTimeout 2500;
                  Exec ps_command; ReadFile certificate_path; SetTimeout 2500];
          abandoned := false |}
  /\ (forall inputs,
         settled (state (authenticate (options_with (Some true) None (Some false))
                           (linux (Some sample_arguments) None) inputs))
         = false).
Proof.
  split; [vm_compute; reflexivity|split; [vm_compute; reflexivity|]].
  intros inputs.
  destruct (CallFacts.polling_always
              (options_with (Some true) None (Some false))
              (linux (Some sample_arguments) None) inputs eq_refl eq_refl)
    as [n ab _|n ab _|n r ab _ Hret]; cbn [state settled]; try reflexivity.
  rewrite (ReadFacts.stationary_attempt _ _ n) in Hret by reflexivity.
  vm_compute in Hret. discriminate.
Qed.

(** C8, the counterexample: nobody runs the client; the caller abandons the
    call while the first timer is pending.  The timer is still pending after
    that, it fires, the command is run a second time and a second timer is
    set. *)
Lemma abandon_counterexample :
  authenticate (options_with (Some true) None None) (linux None None)
    [Progress; Abandon]
  = {| state := Waiting 0 2500;
       log := [PlatformChecked; Exec ps_command; SetTimeout 2500];
       abandoned := true |}
  /\ authenticate (options_with (Some true) None None) (linux None None)
       [Progress; Abandon; Progress; Progress]
     = {| state := Waiting 1 2500;
          log := [PlatformChecked; Exec ps_command; SetTimeout 2500;
                  Exec ps_command; SetTimeout 2500];
          abandoned := true |}.
Proof. split; vm_compute; reflexivity. Qed.

(** C8, amended: a polling call cannot be cancelled.  Once the caller has
    abandoned it, on a supported platform: a pending timer still fires and the
    next attempt runs the command; a failed attempt still sets the next
    timer, with [pollInterval] or 2500; an attempt that succeeds still
    resolves the promise; and as long as no attempt succeeds the attempts
    go on, one more command for every two steps, without end. *)
Theorem abandoned_call_goes_on options host before :
  truthy (chain options Options.awaitConnection) = true ->
  includes supported_platforms (platform host) = true ->
  abandoned (authenticate options host before) = true ->
  (forall n d,
      state (authenticate options host before) = Waiting n d ->
      state (authenticate options host (before ++ [Progress])) = Attempting (S n)
      /\ log (authenticate options host (before ++ [Progress]))
         = log (authenticate options host before) ++ [Exec (command host)])
  /\ (forall n,
         state (authenticate options host before) = Attempting n ->
         fails options host n ->
         state (authenticate options host (before ++ [Progress]))
         = Waiting n match chain options Options.pollInterval with
                     | Some ms => ms
                     | None => 2500%Z
                     end
         /\ exists evs,
             log (authenticate options host (before ++ [Progress]))
             = log (authenticate options host before)
               ++ evs
               ++ [SetTimeout match chain options Options.pollInterval with
                              | Some ms => ms
                              | None => 2500%Z
                              end])
  /\ (forall n c,
         state (authenticate options host before) = Attempting n ->
         snd (tryAuthenticate options host n) = Returned c ->
         state (authenticate options host (before ++ [Progress])) = Succeeded c)
  /\ (forall after,
         (forall k, fails options host k) ->
         exists k,
           count is_exec (log (authenticate options host (before ++ after)))
           = k + 1
           /\ ((length (filter is_progress (before ++ after)) = 2 * k
                /\ state (authenticate options host (before ++ after))
                   = Attempting k
                /\ count is_timeout
                     (log (authenticate options host (before ++ after))) = k)
               \/ (length (filter is_progress (before ++ after)) = 2 * k + 1
                   /\ (exists d,
                          state (authenticate options host (before ++ after))
                          = Waiting k d)
                   /\ count is_timeout
                        (log (authenticate options host (before ++ after)))
                      = k + 1)))
  /\ (forall after,
         abandoned (authenticate options host (before ++ after)) = true).
Proof.
  intros Ha Hp Hab.
  assert (Hdelay : interval options
                   = match chain options Options.pollInterval with
                     | Some ms => ms
                     | None => 2500%Z
                     end)
    by (unfold interval, nullish; now destruct (chain options Options.pollInterval)).
  rewrite <- Hdelay.
  assert (Hone : authenticate options host (before ++ [Progress])
                 = step options host (authenticate options host before) Progress)
    by (now rewrite CallFacts.authenticate_app).
  rewrite Hone. repeat apply conj.
  - intros n d Hs. rewrite (CallFacts.step_timer options host _ n d Hs).
    now split.
  - intros n Hs Hf.
    rewrite (CallFacts.step_attempt_polling options host _ n Ha Hs).
    destruct (CallFacts.self_cases options host n) as [(r & Hr & _)|(_ & ->)].
    + destruct Hf as [e He]. congruence.
    + cbn [fst snd state log]. split; [reflexivity|].
      now exists (after_exec options host n).
  - intros n c Hs Hc.
    rewrite (CallFacts.step_attempt_polling options host _ n Ha Hs).
    destruct (CallFacts.self_cases options host n)
      as [(r & Hr & ->)|([e He] & _)]; [|congruence].
    cbn [fst state]. congruence.
  - intros after Hall.
    destruct (ScheduleFacts.run_by_count options host (before ++ after))
      as [Hs Hl].
    rewrite Hs, Hl.
    destruct (Nat.Even_or_Odd (length (filter is_progress (before ++ after))))
      as [[k Hk]|[k Hk]]; rewrite Hk; exists k.
    + destruct (CallFacts.polling_reaches options host k Ha Hp
                  (fun j _ => Hall j)) as [Hst Hlg].
      rewrite Hst, Hlg.
      change (count ?p (PlatformChecked :: ?l)) with (count p l).
      rewrite !CallFacts.count_app, CallFacts.failed_rounds_execs,
        CallFacts.failed_rounds_timeouts.
      split; [cbn; lia|]. left. repeat split. cbn. lia.
    + destruct (CallFacts.polling_waits options host k Ha Hp
                  (fun j _ => Hall j)) as [Hst Hlg].
      rewrite Hst, Hlg.
      change (count ?p (PlatformChecked :: ?l)) with (count p l).
      rewrite CallFacts.failed_rounds_execs, CallFacts.failed_rounds_timeouts.
      split; [lia|]. right. repeat split; [eauto|lia].
  - intros after. rewrite CallFacts.authenticate_app.
    now apply LogFacts.abandoned_stays.
Qed.

Lemma abandoned_call_goes_on_witness :
  state (authenticate (polling_every 100) (linux None None)
           ([Progress; Abandon] ++ [Progress]))
  = Attempting 1
  /\ log (authenticate (polling_every 100) (linux None None)
            ([Progress; Abandon] ++ [Progress]))
     = log (authenticate (polling_every 100) (linux None None)
              [Progress; Abandon])
       ++ [Exec (command (linux None None))].
Proof.
  apply (proj1 (abandoned_call_goes_on (polling_every 100) (linux None None)
                  [Progress; Abandon] eq_refl eq_refl eq_refl) 0 100%Z eq_refl).
Defined.

(** Polling every 100 ms, the client appears at the third attempt. *)
Example polling_every_100_run :
  authenticate (polling_every 100) (linux_from 2 sample_arguments)
    (repeat Progress 5)
  = {| state := Succeeded {| port := Finite 56789; password := "abc-123";
                             pid := Finite 4321; certificate := None |};
       log := [PlatformChecked;
               Exec ps_command; SetTimeout 100;
               Exec ps_command; SetTimeout 100;
               Exec ps_command];
       abandoned := false |}.
Proof. vm_compute. reflexivity. Qed.

(** The call has run the command before anything else happens. *)
Example command_runs_at_once :
  authenticate None (linux None None) []
  = {| state := Attempting 0;
       log := [PlatformChecked; Exec ps_command];
       abandoned := false |}.
Proof. reflexivity. Qed.
